(** * regspy: the cache-coalescing vehicle lookup pipeline

    A shallow embedding of [database.py], [rate_limiter.py],
    [vehicle_api.py], [utils.py] and the [/vehicle] route of [app.py],
    with the properties of the MOT history merge, the staleness policy,
    the sliding-window rate limiter and the request pipeline. *)

From stdpp Require Import gmap strings list sorting pretty.
From Stdlib Require Import ZArith Lia Ascii.

Local Open Scope string_scope.
Local Open Scope list_scope.
Local Open Scope Z_scope.

(** ** Python values and exceptions *)

(** The exceptions the modelled code can raise. *)
Inductive exn :=
  | KeyError (key : string)
  | TypeError
  | VehicleAPIError (message : string) (status_code : Z)
  | HTTPError (status_code : Z)
  | ConnectionError
  | StorageError.

(** A computation that returns or raises. *)
Inductive result (A : Type) :=
  | Ok (a : A)
  | Raise (e : exn).
Arguments Ok {A} a.
Arguments Raise {A} e.

(** Sequencing: the first exception raised ends the computation. *)
#[global] Instance result_ret : MRet result := λ A a, Ok a.
#[global] Instance result_bind : MBind result := λ A B k r,
  match r with
  | Ok a => k a
  | Raise e => Raise e
  end.

#[global] Instance exn_eq_dec : EqDecision exn.
Proof. solve_decision. Defined.

#[global] Instance result_eq_dec `{EqDecision A} : EqDecision (result A).
Proof. solve_decision. Defined.

(** A JSON scalar as a column or a document field holds it:
    [None]/null, an integer or text. *)
Inductive value :=
  | VNull
  | VInt (z : Z)
  | VStr (s : string).

#[global] Instance value_eq_dec : EqDecision value.
Proof. solve_decision. Defined.

(** An MOT test is a JSON object.  The model keeps the values of its
    fields as text, which is what the MOT API sends for [completedDate]
    (for instance [2023.05.12 10:11:12]); a field can be missing. *)
Abbreviation MotTest := (gmap string string).

(** [test['completedDate']]: the subscript raises [KeyError] on a
    missing key. *)
Definition getitem (t : MotTest) (k : string) : result string :=
  match t !! k with
  | Some v => Ok v
  | None => Raise (KeyError k)
  end.

Definition completedDate (t : MotTest) : result string :=
  getitem t "completedDate".

(** ** Python's dict and list.sort, as [merge_mot_data] uses them *)

Module PyDict.
(** A dict keeps its items in insertion order; assigning to a key that
    is already there replaces the value and keeps the position. *)
Definition t (V : Type) := list (string * V).

Fixpoint set {V} (k : string) (v : V) (d : t V) : t V :=
  match d with
  | [] => [(k, v)]
  | (k', v') :: d' =>
      if decide (k' = k) then (k', v) :: d' else (k', v') :: set k v d'
  end.

Fixpoint get {V} (k : string) (d : t V) : option V :=
  match d with
  | [] => None
  | (k', v') :: d' => if decide (k' = k) then Some v' else get k d'
  end.

Definition keys {V} (d : t V) : list string := d.*1.
Definition values {V} (d : t V) : list V := d.*2.
End PyDict.

(** Dates compare as Python compares [str]: lexicographically by code
    point, which on UTF-8 text is the order of the bytes. *)
Definition date_le (a b : string) : Prop := String.le a b.
Definition date_lt (a b : string) : Prop := String.le a b ∧ a ≠ b.

#[global] Instance date_le_dec : RelDecision date_le.
Proof. unfold date_le. apply _. Defined.
#[global] Instance date_lt_dec : RelDecision date_lt.
Proof. unfold date_lt. intros a b. apply _. Defined.

Module PySort.
(** [list.sort(key=f, reverse=True)] computes the key of every item
    first, then sorts stably: items whose keys are equal keep their
    original order, also with [reverse=True].  A stable sort has one
    possible output, so a stable insertion sort stands for Timsort. *)
Fixpoint insert_desc {A} (x : string * A) (l : list (string * A))
  : list (string * A) :=
  match l with
  | [] => [x]
  | y :: l' =>
      if decide (date_le y.1 x.1) then x :: y :: l'
      else y :: insert_desc x l'
  end.

Definition sort_desc {A} (l : list (string * A)) : list (string * A) :=
  foldr insert_desc [] l.

Fixpoint keys_of {A} (f : A → result string) (l : list A)
  : result (list string) :=
  match l with
  | [] => Ok []
  | x :: l' => k ← f x; ks ← keys_of f l'; Ok (k :: ks)
  end.

Definition sort_reverse {A} (f : A → result string) (l : list A)
  : result (list A) :=
  ks ← keys_of f l; Ok ((sort_desc (zip ks l)).*2).
End PySort.

(** ** database.py: merge_mot_data *)

(** The dict comprehension and the [for] loop both assign
    [d[test['completedDate']] = test] for each test in turn. *)
Fixpoint fill (d : PyDict.t MotTest) (tests : list MotTest)
  : result (PyDict.t MotTest) :=
  match tests with
  | [] => Ok d
  | test :: tests' =>
      k ← completedDate test; fill (PyDict.set k test d) tests'
  end.

Definition merge_mot_data (existing_data new_data : list MotTest)
  : result (list MotTest) :=
  existing_dict ← fill [] existing_data;
  existing_dict ← fill existing_dict new_data;
  PySort.sort_reverse completedDate (PyDict.values existing_dict).

(** ** rate_limiter.py *)

(** [time.time()] is read as a whole number of clock ticks and
    [window_size] counts the same ticks (seconds for the global
    instance).  [requests] is a [defaultdict(list)]: a client that was
    never seen has the empty list.  The lock is not modelled: calls are
    taken one after the other. *)
Record RateLimiter := {
  window_size : Z;
  max_requests : Z;
  requests : gmap string (list Z)
}.

Definition _cleanup_old_requests (self : RateLimiter) (ip : string) (now : Z)
  : RateLimiter :=
  {| window_size := window_size self;
     max_requests := max_requests self;
     requests :=
       <[ip := filter (λ req_time, now - req_time ≤ window_size self)
                      (requests self !!! ip)]> (requests self) |}.

Definition is_rate_limited (self : RateLimiter) (ip : string) (now : Z)
  : bool * RateLimiter :=
  let self := _cleanup_old_requests self ip now in
  let self :=
    {| window_size := window_size self;
       max_requests := max_requests self;
       requests := <[ip := (requests self !!! ip) ++ [now]]> (requests self) |} in
  (bool_decide (Z.of_nat (length (requests self !!! ip)) > max_requests self),
   self).

(** [RateLimiter()] with its defaults. *)
Definition rate_limiter : RateLimiter :=
  {| window_size := 60; max_requests := 10; requests := ∅ |}.

(** The calls of one client at the times [times], in order, on the
    limiter [self]: the verdicts and the limiter afterwards. *)
Fixpoint calls (self : RateLimiter) (ip : string) (times : list Z)
  : list bool * RateLimiter :=
  match times with
  | [] => ([], self)
  | now :: times' =>
      let '(limited, self') := is_rate_limited self ip now in
      let '(verdicts, self'') := calls self' ip times' in
      (limited :: verdicts, self'')
  end.

(** ** database.py: the tables *)

(** A row of [vehicle_cache].  String and Integer columns hold a JSON
    scalar or NULL.  [mot_data] is a Text column: [None] is NULL and
    [Some tests] the JSON text of the list [tests] ([json.dumps] and
    [json.loads] are inverse on it).  The DateTime columns count
    microseconds, the resolution of [datetime].  The position of a row
    in the table stands for its [id]. *)
Record VehicleCache := {
  registration_number : string;
  make : value;
  model : value;
  first_used_date : value;
  fuel_type : value;
  primary_colour : value;
  registration_date : value;
  manufacture_date : value;
  engine_size : value;
  mot_data : option (list MotTest);
  tax_status : value;
  tax_due_date : value;
  mot_status : value;
  mot_expiry_date : value;
  year_of_manufacture : value;
  co2_emissions : value;
  last_updated : Z;
  last_requested : Z;
  request_count : Z
}.

(** What the route collects about the client ([request_data]). *)
Record RequestData := {
  cf_connecting_ip : string;
  user_agent : option string;
  referrer : option string;
  cf_country : option string;
  cf_region : option string;
  cf_city : option string;
  cf_timezone : option string;
  cf_isp : option string;
  local_timezone : string;
  headers : gmap string string
}.

(** A row of [request_logs]. *)
Record RequestLog := {
  log_registration_number : string;
  log_request_data : RequestData;
  query_time : Z;
  is_cached : bool;
  requested_at : Z
}.

Record Tables := {
  vehicle_cache : list VehicleCache;
  request_logs : list RequestLog
}.

(** A JSON document as the code reads it: scalar fields by key, and the
    key [motTests], absent or holding a list of tests. *)
Record Doc := {
  fields : gmap string value;
  motTests : option (list MotTest)
}.

(** [data.get(key, default)] and [data.get(key)]. *)
Definition get_or (data : Doc) (key : string) (dflt : value) : value :=
  default dflt (fields data !! key).
Definition get (data : Doc) (key : string) : value :=
  get_or data key VNull.

(** ** The session of one request *)

(** What the handler of one request works on.  [pending] is the
    database as the SQLAlchemy session sees it: the rows with the
    changes made to the objects of the session, committed or not.
    [committed] is what the database file holds.  [fetched] lists the
    registrations [get_vehicle_data] was called with. *)
Record Session := {
  pending : Tables;
  committed : Tables;
  fetched : list string
}.

(** A step of the handler: it returns or raises, and in both cases
    leaves a session behind. *)
Definition M (A : Type) : Type := Session → result A * Session.

#[global] Instance M_ret : MRet M := λ A a s, (Ok a, s).
#[global] Instance M_bind : MBind M := λ A B k m s,
  match m s with
  | (Ok a, s') => k a s'
  | (Raise e, s') => (Raise e, s')
  end.

Definition raise {A} (e : exn) : M A := λ s, (Raise e, s).

(** [try: body except Exception as e: handler e]. *)
Definition try_except {A} (body : M A) (handler : exn → M A) : M A := λ s,
  match body s with
  | (Ok a, s') => (Ok a, s')
  | (Raise e, s') => handler e s'
  end.

(** [db.commit()]. *)
Definition commit : M unit := λ s,
  (Ok (), {| pending := pending s; committed := pending s;
             fetched := fetched s |}).

(** [db.query(VehicleCache).filter(registration_number == reg).first()]:
    the first row with that registration and its place in the table. *)
Definition query_first (reg : string) : M (option (nat * VehicleCache)) := λ s,
  (Ok (list_find (λ v, registration_number v = reg)
                 (vehicle_cache (pending s))), s).

(** Assigning to the attributes of a row object of the session. *)
Definition set_row (i : nat) (vehicle : VehicleCache) : M unit := λ s,
  (Ok (), {| pending :=
               {| vehicle_cache := <[i := vehicle]> (vehicle_cache (pending s));
                  request_logs := request_logs (pending s) |};
             committed := committed s;
             fetched := fetched s |}).

(** [db.add(vehicle)]. *)
Definition add_vehicle (vehicle : VehicleCache) : M unit := λ s,
  (Ok (), {| pending :=
               {| vehicle_cache := vehicle_cache (pending s) ++ [vehicle];
                  request_logs := request_logs (pending s) |};
             committed := committed s;
             fetched := fetched s |}).

(** [db.add(log_entry)]. *)
Definition add_log (log_entry : RequestLog) : M unit := λ s,
  (Ok (), {| pending :=
               {| vehicle_cache := vehicle_cache (pending s);
                  request_logs := request_logs (pending s) ++ [log_entry] |};
             committed := committed s;
             fetched := fetched s |}).

(** A pure computation that may raise, run inside the handler. *)
Definition lift {A} (r : result A) : M A := λ s, (r, s).

(** ** database.py: the store *)

(** [timedelta.days] of a difference of [delta] microseconds: a
    [timedelta] is normalised with its seconds and microseconds
    non-negative, so [days] is the floor of the quotient. *)
Definition days (delta : Z) : Z := delta `div` 86400000000.

(** Lines 39 to 52: each scalar column takes [data.get(key, old)]. *)
Definition overwrite_scalars (vehicle : VehicleCache) (data : Doc)
  : VehicleCache :=
  {| registration_number := registration_number vehicle;
     make := get_or data "make" (make vehicle);
     model := get_or data "model" (model vehicle);
     first_used_date := get_or data "firstUsedDate" (first_used_date vehicle);
     fuel_type := get_or data "fuelType" (fuel_type vehicle);
     primary_colour := get_or data "colour" (primary_colour vehicle);
     registration_date :=
       get_or data "registrationDate" (registration_date vehicle);
     manufacture_date :=
       get_or data "manufactureDate" (manufacture_date vehicle);
     engine_size := get_or data "engineCapacity" (engine_size vehicle);
     mot_data := mot_data vehicle;
     tax_status := get_or data "taxStatus" (tax_status vehicle);
     tax_due_date := get_or data "taxDueDate" (tax_due_date vehicle);
     mot_status := get_or data "motStatus" (mot_status vehicle);
     mot_expiry_date := get_or data "motExpiryDate" (mot_expiry_date vehicle);
     year_of_manufacture :=
       get_or data "yearOfManufacture" (year_of_manufacture vehicle);
     co2_emissions := get_or data "co2Emissions" (co2_emissions vehicle);
     last_updated := last_updated vehicle;
     last_requested := last_requested vehicle;
     request_count := request_count vehicle |}.

(** Lines 58 to 62: the merged history, the two timestamps and the
    counter. *)
Definition refresh (vehicle : VehicleCache) (merged_mot_data : list MotTest)
  (now : Z) : VehicleCache :=
  {| registration_number := registration_number vehicle;
     make := make vehicle;
     model := model vehicle;
     first_used_date := first_used_date vehicle;
     fuel_type := fuel_type vehicle;
     primary_colour := primary_colour vehicle;
     registration_date := registration_date vehicle;
     manufacture_date := manufacture_date vehicle;
     engine_size := engine_size vehicle;
     mot_data := Some merged_mot_data;
     tax_status := tax_status vehicle;
     tax_due_date := tax_due_date vehicle;
     mot_status := mot_status vehicle;
     mot_expiry_date := mot_expiry_date vehicle;
     year_of_manufacture := year_of_manufacture vehicle;
     co2_emissions := co2_emissions vehicle;
     last_updated := now;
     last_requested := now;
     request_count := request_count vehicle + 1 |}.

(** Lines 65 to 83: the new row; the timestamps take their column
    default, the time of the insert. *)
Definition new_vehicle (reg : string) (data : Doc) (now : Z) : VehicleCache :=
  {| registration_number := reg;
     make := get data "make";
     model := get data "model";
     first_used_date := get data "firstUsedDate";
     fuel_type := get data "fuelType";
     primary_colour := get data "colour";
     registration_date := get data "registrationDate";
     manufacture_date := get data "manufactureDate";
     engine_size := get data "engineCapacity";
     mot_data := Some (default [] (motTests data));
     tax_status := get data "taxStatus";
     tax_due_date := get data "taxDueDate";
     mot_status := get data "motStatus";
     mot_expiry_date := get data "motExpiryDate";
     year_of_manufacture := get data "yearOfManufacture";
     co2_emissions := get data "co2Emissions";
     last_updated := now;
     last_requested := now;
     request_count := 1 |}.

(** [now] is the reading of [datetime.utcnow()] during the call; the
    successive readings within one call are taken as one. *)
Definition cache_vehicle_data (now : Z) (reg : string) (data : Doc) : M unit :=
  found ← query_first reg;
  match found with
  | Some (i, vehicle) =>
      let vehicle := overwrite_scalars vehicle data in
      set_row i vehicle;;
      let existing_mot_data := default [] (mot_data vehicle) in
      let new_mot_data := default [] (motTests data) in
      merged_mot_data ← lift (merge_mot_data existing_mot_data new_mot_data);
      set_row i (refresh vehicle merged_mot_data now);;
      commit
  | None =>
      add_vehicle (new_vehicle reg data now);;
      commit
  end.

(** [vehicle.last_requested = utcnow(); vehicle.request_count += 1]. *)
Definition touch (vehicle : VehicleCache) (now : Z) : VehicleCache :=
  {| registration_number := registration_number vehicle;
     make := make vehicle;
     model := model vehicle;
     first_used_date := first_used_date vehicle;
     fuel_type := fuel_type vehicle;
     primary_colour := primary_colour vehicle;
     registration_date := registration_date vehicle;
     manufacture_date := manufacture_date vehicle;
     engine_size := engine_size vehicle;
     mot_data := mot_data vehicle;
     tax_status := tax_status vehicle;
     tax_due_date := tax_due_date vehicle;
     mot_status := mot_status vehicle;
     mot_expiry_date := mot_expiry_date vehicle;
     year_of_manufacture := year_of_manufacture vehicle;
     co2_emissions := co2_emissions vehicle;
     last_updated := last_updated vehicle;
     last_requested := now;
     request_count := request_count vehicle + 1 |}.

(** [{column.name: getattr(vehicle, column.name) ...}], on the columns
    that hold a JSON scalar; [id], [mot_data] and the two timestamps,
    which no reader of the dict looks at, are left out. *)
Definition columns (vehicle : VehicleCache) : gmap string value :=
  list_to_map
    [("registration_number", VStr (registration_number vehicle));
     ("make", make vehicle);
     ("model", model vehicle);
     ("first_used_date", first_used_date vehicle);
     ("fuel_type", fuel_type vehicle);
     ("primary_colour", primary_colour vehicle);
     ("registration_date", registration_date vehicle);
     ("manufacture_date", manufacture_date vehicle);
     ("engine_size", engine_size vehicle);
     ("tax_status", tax_status vehicle);
     ("tax_due_date", tax_due_date vehicle);
     ("mot_status", mot_status vehicle);
     ("mot_expiry_date", mot_expiry_date vehicle);
     ("year_of_manufacture", year_of_manufacture vehicle);
     ("co2_emissions", co2_emissions vehicle);
     ("request_count", VInt (request_count vehicle))].

(** [None] of Python is [Ok None]; [json.loads] of a NULL [mot_data]
    raises [TypeError], after the commit. *)
Definition get_cached_vehicle_data (now : Z) (reg : string) : M (option Doc) :=
  found ← query_first reg;
  match found with
  | Some (i, vehicle) =>
      if bool_decide (1 ≤ days (now - last_updated vehicle)) then mret None
      else
        let vehicle := touch vehicle now in
        set_row i vehicle;;
        commit;;
        match mot_data vehicle with
        | Some tests =>
            mret (Some {| fields := columns vehicle; motTests := Some tests |})
        | None => raise TypeError
        end
  | None => mret None
  end.

Definition increment_request_count (now : Z) (reg : string) : M unit :=
  found ← query_first reg;
  match found with
  | Some (i, vehicle) => set_row i (touch vehicle now);; commit
  | None => mret ()
  end.

Definition get_request_count (reg : string) : M Z :=
  found ← query_first reg;
  match found with
  | Some (_, vehicle) => mret (request_count vehicle)
  | None => mret 0
  end.

Definition check_cache_exists (reg : string) : M bool :=
  found ← query_first reg;
  mret (bool_decide (is_Some found)).

(** [write_fails] is the environment: whether the storage refuses the
    new row of [request_logs] (disk or connection failure), in which
    case the call raises and nothing of it is kept. *)
Definition log_request (write_fails : bool) (now : Z) (reg : string)
  (request_data : RequestData) (query_time : Z) (is_cached : bool) : M unit :=
  if write_fails then raise StorageError
  else
    add_log {| log_registration_number := reg;
               log_request_data := request_data;
               query_time := query_time;
               is_cached := is_cached;
               requested_at := now |};;
    increment_request_count now reg;;
    commit.

(** ** utils.py and vehicle_api.py: the aggregator *)

(** What [requests.post] and [requests.get] come back with: a response
    with its status code and the value of its JSON body, or no response
    at all, in which case [requests] raises. *)
Inductive reply (A : Type) :=
  | Reply (status_code : Z) (json : A)
  | NoReply.
Arguments Reply {A} status_code json.
Arguments NoReply {A}.

(** The three upstream endpoints, as the environment answers them: the
    VES API by registration, the token endpoint (the body is read at
    [access_token]), the MOT API by bearer token and registration. *)
Record Upstream := {
  ves_api : string → reply Doc;
  token_api : reply (option string);
  mot_api : string → string → reply Doc
}.

(** [response.raise_for_status()] raises on the status codes 400 to 599;
    the argument is the response to the POST of the credentials. *)
Definition generate_mot_access_token (response : reply (option string))
  : result string :=
  match response with
  | NoReply => Raise ConnectionError
  | Reply status_code json =>
      if bool_decide (400 ≤ status_code < 600) then Raise (HTTPError status_code)
      else
        match json with
        | Some access_token => Ok access_token
        | None => Raise (KeyError "access_token")
        end
  end.

Definition get_mot_access_token (up : Upstream) : result string :=
  generate_mot_access_token (token_api up).

(** [{**ves_data, **mot_data}]: the keys of [mot_data] win. *)
Definition combine (ves_data mot_data : Doc) : Doc :=
  {| fields := fields mot_data ∪ fields ves_data;
     motTests :=
       match motTests mot_data with
       | Some tests => Some tests
       | None => motTests ves_data
       end |}.

Definition empty_doc : Doc := {| fields := ∅; motTests := None |}.

Definition get_vehicle_data (up : Upstream) (reg : string) : result Doc :=
  match ves_api up reg with
  | NoReply => Raise ConnectionError
  | Reply status_code ves_data =>
      if bool_decide (status_code ≠ 200) then
        if bool_decide (status_code = 404) then
          Raise (VehicleAPIError "Vehicle not found" 404)
        else if bool_decide (status_code = 400) then
          Raise (VehicleAPIError "Invalid registration number" 400)
        else
          Raise (VehicleAPIError
                   ("Error fetching vehicle data from VES API: "
                      +:+ pretty status_code) status_code)
      else
        mot_access_token ← get_mot_access_token up;
        match mot_api up mot_access_token reg with
        | NoReply => Raise ConnectionError
        | Reply mot_status_code mot_json =>
            let mot_data :=
              if bool_decide (mot_status_code ≠ 200) then empty_doc
              else mot_json in
            let combined_data := combine ves_data mot_data in
            Ok (match motTests combined_data with
                | Some _ => combined_data
                | None => {| fields := fields combined_data;
                             motTests := Some [] |}
                end)
        end
  end.

(** Python's truth value of a JSON scalar and its [a or b]. *)
Definition truthy (v : value) : bool :=
  match v with
  | VNull => false
  | VInt z => bool_decide (z ≠ 0)
  | VStr s => bool_decide (s ≠ "")
  end.
Definition py_or (a b : value) : value := if truthy a then a else b.

(** In the normalised document every key is present; a [motTests] of
    [None] is the value null. *)
Definition normalize_vehicle_data (data : Doc) : Doc :=
  {| fields :=
       list_to_map
         [("co2_emissions",
            py_or (get data "co2Emissions") (get data "co2_emissions"));
          ("engine_size",
            py_or (get data "engineCapacity") (get data "engine_size"));
          ("first_used_date",
            py_or (get data "firstUsedDate") (get data "first_used_date"));
          ("fuel_type", py_or (get data "fuelType") (get data "fuel_type"));
          ("make", get data "make");
          ("manufacture_date",
            py_or (get data "manufactureDate") (get data "manufacture_date"));
          ("model", get data "model");
          ("mot_expiry_date",
            py_or (get data "motExpiryDate") (get data "mot_expiry_date"));
          ("mot_status", py_or (get data "motStatus") (get data "mot_status"));
          ("primary_colour",
            py_or (get data "primaryColour") (get data "primary_colour"));
          ("registration_date",
            py_or (get data "registrationDate") (get data "registration_date"));
          ("registration_number", get data "registration_number");
          ("tax_due_date",
            py_or (get data "taxDueDate") (get data "tax_due_date"));
          ("tax_status", py_or (get data "taxStatus") (get data "tax_status"));
          ("year_of_manufacture",
            py_or (get data "yearOfManufacture")
                  (get data "year_of_manufacture"));
          ("request_count", get data "request_count")];
     motTests := motTests data |}.

(** ** app.py: the route *)

(** The inbound request: its headers, the address of the peer and the
    two keys of its JSON body. *)
Record Request := {
  request_headers : gmap string string;
  remote_addr : string;
  json_reg : option string;
  json_timezone : option string
}.

Inductive Payload :=
  | Vehicle (normalized_data : Doc)
  | Error (error : string)
  | LimitExceeded (limit : Z) (window : string).

Record Response := {
  status : Z;
  payload : Payload
}.

(** What one request meets: the reading of [time.time()] for the rate
    limiter, the reading of [datetime.utcnow()], the duration measured
    for the log, the upstream APIs, and whether the storage refuses the
    log row. *)
Record Env := {
  time : Z;
  utcnow : Z;
  elapsed : Z;
  upstream : Upstream;
  log_write_fails : bool
}.

(** [reg.replace(' ', '')]. *)
Fixpoint remove_spaces (s : string) : string :=
  match s with
  | EmptyString => EmptyString
  | String c s' =>
      if bool_decide (c = " "%char) then remove_spaces s'
      else String c (remove_spaces s')
  end.

Definition client_ip (request : Request) : string :=
  default (remote_addr request) (request_headers request !! "CF-Connecting-IP").

Definition request_data_of (request : Request) : RequestData :=
  {| cf_connecting_ip := client_ip request;
     user_agent := request_headers request !! "User-Agent";
     referrer := request_headers request !! "Referer";
     cf_country := request_headers request !! "CF-IPCountry";
     cf_region := request_headers request !! "CF-Region";
     cf_city := request_headers request !! "CF-City";
     cf_timezone := request_headers request !! "CF-Timezone";
     cf_isp := request_headers request !! "CF-ISP";
     local_timezone := default "Unknown" (json_timezone request);
     headers := request_headers request |}.

(** The call of the aggregator from the route, noted in [fetched]. *)
Definition fetch (up : Upstream) (reg : string) : M Doc := λ s,
  (get_vehicle_data up reg,
   {| pending := pending s; committed := committed s;
      fetched := fetched s ++ [reg] |}).

Definition with_count (normalized_data : Doc) (request_count : Z) : Doc :=
  {| fields := <["request_count" := VInt request_count]> (fields normalized_data);
     motTests := motTests normalized_data |}.

(** The body of [with get_db() as db:]. *)
Definition serve (env : Env) (reg : string) (request_data : RequestData)
  : M Response :=
  let log := log_request (log_write_fails env) (utcnow env) reg request_data
                         (elapsed env) in
  is_cached ← check_cache_exists reg;
  try_except
    (cached_data ←
       (if is_cached : bool then get_cached_vehicle_data (utcnow env) reg
        else mret None);
     match cached_data with
     | Some cached_data =>
         log true;;
         request_count ← get_request_count reg;
         mret {| status := 200;
                 payload := Vehicle (with_count
                                       (normalize_vehicle_data cached_data)
                                       request_count) |}
     | None =>
         fresh_data ← fetch (upstream env) reg;
         cache_vehicle_data (utcnow env) reg fresh_data;;
         log is_cached;;
         request_count ← get_request_count reg;
         mret {| status := 200;
                 payload := Vehicle (with_count
                                       (normalize_vehicle_data fresh_data)
                                       request_count) |}
     end)
    (λ e,
       match e with
       | VehicleAPIError message status_code =>
           log is_cached;;
           mret {| status := status_code; payload := Error message |}
       | _ =>
           log is_cached;;
           mret {| status := 500;
                   payload := Error "An unexpected error occurred" |}
       end).

(** The application between two requests: the global rate limiter, the
    database file, and the registrations the aggregator was called
    with so far. *)
Record App := {
  limiter : RateLimiter;
  database : Tables;
  aggregator_calls : list string
}.

(** [vehicle] opens a session on the database, and [get_db] closes it
    whatever happens: what was not committed is lost.  An exception
    that leaves the function is answered by the framework. *)
Definition vehicle (env : Env) (request : Request) (app : App)
  : result Response * App :=
  match json_reg request with
  | None => (Raise (KeyError "reg"), app)
  | Some reg =>
      let reg := remove_spaces reg in
      if bool_decide (reg = "") then
        (Ok {| status := 400;
               payload := Error "Registration number is required" |}, app)
      else
        let '(r, db) :=
          serve env reg (request_data_of request)
                 {| pending := database app; committed := database app;
                    fetched := aggregator_calls app |} in
        (r, {| limiter := limiter app; database := committed db;
               aggregator_calls := fetched db |})
  end.

(** The decorator of rate_limiter.py around a route. *)
Definition rate_limit (func : Env → Request → App → result Response * App)
  (env : Env) (request : Request) (app : App) : result Response * App :=
  let ip := client_ip request in
  let '(limited, limiter') := is_rate_limited (limiter app) ip (time env) in
  let app := {| limiter := limiter'; database := database app;
                aggregator_calls := aggregator_calls app |} in
  if limited then
    (Ok {| status := 429;
           payload := LimitExceeded (max_requests limiter')
                        (pretty (window_size limiter') +:+ " seconds") |}, app)
  else func env request app.

(** [POST /vehicle]. *)
Definition post_vehicle : Env → Request → App → result Response * App :=
  rate_limit vehicle.

(** ** database.py: the operations outside the route *)



(** The exceptions of the code outside the route: those of the route,
    and [AttributeError]. *)
Inductive exn_more :=
  | Exn (e : exn)
  | AttributeError.

Inductive outcome (A : Type) :=
  | Returned (a : A)
  | Raised (e : exn_more).
Arguments Returned {A} a.
Arguments Raised {A} e.

(** [get_mot_history] reads [data = json.loads(vehicle.mot_data)] and
    then calls [data.get('motTests', [])]: a NULL [mot_data] raises
    [TypeError] in [json.loads], and the JSON list that [mot_data]
    holds otherwise has no method [get].  The session is only read. *)
Definition get_mot_history (reg : string) (s : Session)
  : outcome (list MotTest) :=
  match list_find (λ v, registration_number v = reg)
                  (vehicle_cache (pending s)) with
  | Some (_, vehicle) =>
      match mot_data vehicle with
      | Some data => Raised AttributeError
      | None => Raised (Exn TypeError)
      end
  | None => Returned []
  end.

(** ** Vocabulary of the statements *)

(** The record carries a [completedDate]. *)
Definition dated (t : MotTest) : Prop := is_Some (t !! "completedDate").

(** The dates of a sequence of records, in order ([None] for a record
    without one). *)
Definition dates (l : list MotTest) : list (option string) :=
  (λ t : MotTest, t !! "completedDate") <$> l.

(** [newer a b]: both carry a date and the date of [a] is strictly
    after the date of [b]. *)
Definition newer (a b : MotTest) : Prop :=
  match a !! "completedDate", b !! "completedDate" with
  | Some da, Some db => date_lt db da
  | _, _ => False
  end.

(** The last record of [l] whose date is [d]. *)
Definition last_dated (d : string) (l : list MotTest) : option MotTest :=
  last (filter (λ t : MotTest, t !! "completedDate" = Some d) l).

(** On items tagged with their key: [x] may stand before [y] in a
    list in descending order, and in one in strictly descending order. *)
Definition desc {A} (x y : string * A) : Prop := date_le y.1 x.1.
Definition strictly_desc {A} (x y : string * A) : Prop := date_lt y.1 x.1.

(** Every item of the dict sits under the date it carries. *)
Definition tagged (d : PyDict.t MotTest) : Prop :=
  Forall (λ x, completedDate x.2 = Ok x.1) d.

#[global] Instance dated_dec t : Decision (dated t).
Proof. unfold dated. apply _. Defined.

#[global] Instance newer_dec : RelDecision newer.
Proof.
  intros a b. unfold newer.
  destruct (a !! "completedDate"), (b !! "completedDate"); apply _.
Defined.

(** The row of a registration, as [.first()] finds it in the tables. *)
Definition find_row (reg : string) (t : Tables) : option VehicleCache :=
  snd <$> list_find (λ v, registration_number v = reg) (vehicle_cache t).

(** The session a request opens on the tables [t]. *)
Definition open_session (t : Tables) (calls : list string) : Session :=
  {| pending := t; committed := t; fetched := calls |}.

(** The scalar columns that the upsert overwrites, each with the key
    of the fresh document it is read from (lines 39 to 52 of
    database.py). *)
Definition scalar_columns : list (string * (VehicleCache → value)) :=
  [("make", make); ("model", model); ("firstUsedDate", first_used_date);
   ("fuelType", fuel_type); ("colour", primary_colour);
   ("registrationDate", registration_date);
   ("manufactureDate", manufacture_date); ("engineCapacity", engine_size);
   ("taxStatus", tax_status); ("taxDueDate", tax_due_date);
   ("motStatus", mot_status); ("motExpiryDate", mot_expiry_date);
   ("yearOfManufacture", year_of_manufacture);
   ("co2Emissions", co2_emissions)].

(** The [request_count] that a response carries. *)
Definition response_count (r : result Response) : option value :=
  match r with
  | Ok {| payload := Vehicle normalized_data |} =>
      fields normalized_data !! "request_count"
  | _ => None
  end.

(** [keeps P m]: the step [m] leaves a session that satisfies [P]
    whenever it starts from one, whether it returns or raises. *)
Definition keeps (P : Session → Prop) {A} (m : M A) : Prop :=
  ∀ s, P s → P (m s).2.

(** The session shows the registration [reg] as the tables [db] do,
    in what is pending and in what is committed. *)
Definition agree (reg : string) (db : Tables) (s : Session) : Prop :=
  find_row reg (pending s) = find_row reg db ∧
  find_row reg (committed s) = find_row reg db.

(** The registrations of the rows of the table, in the order of the
    rows. *)
Definition registrations (t : Tables) : list string :=
  registration_number <$> vehicle_cache t.

(** The session has the rows and the log entries of the tables [db],
    possibly followed by more: the rows keep their place and their
    registration, the log entries are the same. *)
Definition grown (db : Tables) (s : Session) : Prop :=
  (registrations db `prefix_of` registrations (pending s) ∧
   request_logs db `prefix_of` request_logs (pending s)) ∧
  (registrations db `prefix_of` registrations (committed s) ∧
   request_logs db `prefix_of` request_logs (committed s)).

(** ** Sample data *)

Definition test_2023 : MotTest :=
  {[ "completedDate" := "2023.05.12 10:11:12"; "testResult" := "PASSED" ]}.
Definition test_2023_failed : MotTest :=
  {[ "completedDate" := "2023.05.12 10:11:12"; "testResult" := "FAILED" ]}.
Definition test_2024 : MotTest :=
  {[ "completedDate" := "2024.05.10 09:00:00"; "testResult" := "PASSED" ]}.
Definition test_undated : MotTest :=
  {[ "testResult" := "PASSED" ]}.

Definition fresh_AB12CDE : Doc :=
  {| fields := {[ "make" := VStr "FORD"; "colour" := VStr "BLUE";
                  "engineCapacity" := VInt 1596 ]};
     motTests := Some [test_2023] |}.

(** A row of the registration AB12CDE with the given history, time of
    last refresh and counter. *)
Definition row_AB12CDE (history : option (list MotTest)) (updated count : Z)
  : VehicleCache :=
  {| registration_number := "AB12CDE";
     make := VStr "FORD";
     model := VStr "FOCUS";
     first_used_date := VNull;
     fuel_type := VStr "PETROL";
     primary_colour := VStr "BLUE";
     registration_date := VNull;
     manufacture_date := VNull;
     engine_size := VInt 1596;
     mot_data := history;
     tax_status := VStr "Taxed";
     tax_due_date := VNull;
     mot_status := VStr "Valid";
     mot_expiry_date := VNull;
     year_of_manufacture := VInt 2012;
     co2_emissions := VInt 136;
     last_updated := updated;
     last_requested := updated;
     request_count := count |}.

Definition tables_of (rows : list VehicleCache) : Tables :=
  {| vehicle_cache := rows; request_logs := [] |}.

(** A client request for AB12CDE, the empty application, and the
    environment of a request made [seconds] after the start. *)
Definition request_AB12CDE : Request :=
  {| request_headers := {[ "CF-Connecting-IP" := "203.0.113.7" ]};
     remote_addr := "10.0.0.1";
     json_reg := Some "AB12 CDE";
     json_timezone := None |}.

Definition app_empty : App :=
  {| limiter := rate_limiter; database := tables_of []; aggregator_calls := [] |}.

Definition env_at (seconds : Z) (up : Upstream) : Env :=
  {| time := seconds; utcnow := seconds * 1000000; elapsed := 0;
     upstream := up; log_write_fails := false |}.

(** Upstream APIs that know the vehicle, with the given MOT tests, and
    a VES API that does not know it. *)
Definition upstream_with (tests : list MotTest) : Upstream :=
  {| ves_api := λ _, Reply 200 {| fields := fields fresh_AB12CDE;
                                  motTests := None |};
     token_api := Reply 200 (Some "token");
     mot_api := λ _ _, Reply 200 {| fields := ∅; motTests := Some tests |} |}.

Definition upstream_not_found : Upstream :=
  {| ves_api := λ _, Reply 404 empty_doc;
     token_api := Reply 200 (Some "token");
     mot_api := λ _ _, Reply 200 empty_doc |}.

(** * Properties *)

(** ** Python's dict *)

Section pydict.
Context {V : Type}.
Implicit Types (d : PyDict.t V) (k : string) (v : V).

Lemma get_set_eq k v d : PyDict.get k (PyDict.set k v d) = Some v.
Proof.
  induction d as [|[k' v'] d IH]; simpl.
  - by rewrite decide_True.
  - destruct (decide (k' = k)) as [->|Hne]; simpl.
    + by rewrite decide_True.
    + by rewrite decide_False.
Qed.

Lemma get_set_ne k k' v d :
  k ≠ k' → PyDict.get k' (PyDict.set k v d) = PyDict.get k' d.
Proof.
  intros Hne. induction d as [|[k0 v0] d IH]; simpl.
  - by rewrite decide_False.
  - destruct (decide (k0 = k)) as [->|Hne0]; simpl.
    + by rewrite !decide_False.
    + by rewrite IH.
Qed.

Lemma get_set k k' v d :
  PyDict.get k' (PyDict.set k v d)
  = if decide (k = k') then Some v else PyDict.get k' d.
Proof.
  destruct (decide (k = k')) as [->|Hne];
    [apply get_set_eq | by apply get_set_ne].
Qed.

Lemma get_None k d : PyDict.get k d = None ↔ k ∉ PyDict.keys d.
Proof.
  unfold PyDict.keys. induction d as [|[k' v'] d IH]; simpl.
  - split; [intros _; apply not_elem_of_nil | done].
  - rewrite not_elem_of_cons. destruct (decide (k' = k)) as [->|Hne].
    + split; [done | intros [? _]; done].
    + rewrite IH. split; [by intros ?; split; [congruence|] | by intros [_ ?]].
Qed.

Lemma get_Some k v d :
  NoDup (PyDict.keys d) → PyDict.get k d = Some v ↔ (k, v) ∈ d.
Proof.
  unfold PyDict.keys. induction d as [|[k' v'] d IH]; simpl; intros Hnd.
  - split; [done | by intros ?%elem_of_nil].
  - apply NoDup_cons in Hnd as [Hk' Hnd]. rewrite elem_of_cons.
    destruct (decide (k' = k)) as [->|Hne].
    + split; [intros [= ->]; by left |].
      intros [[= ->]|Hin]; [done |].
      exfalso. apply Hk'. apply list_elem_of_fmap. by exists (k, v).
    + rewrite IH by done. split; [by right | intros [[= -> ->]|?]; done].
Qed.

Lemma set_notin k v d : k ∉ PyDict.keys d → PyDict.set k v d = d ++ [(k, v)].
Proof.
  unfold PyDict.keys. induction d as [|[k' v'] d IH]; simpl; [done |].
  rewrite not_elem_of_cons. intros [Hne Hk].
  rewrite decide_False by done. by rewrite IH.
Qed.

Lemma keys_set_in k v d :
  k ∈ PyDict.keys d → PyDict.keys (PyDict.set k v d) = PyDict.keys d.
Proof.
  unfold PyDict.keys. induction d as [|[k' v'] d IH]; simpl.
  - by intros ?%elem_of_nil.
  - destruct (decide (k' = k)) as [->|Hne]; simpl; [done |].
    rewrite elem_of_cons. intros [->|Hin]; [done |]. f_equal. by apply IH.
Qed.

Lemma keys_set k v d :
  PyDict.keys (PyDict.set k v d)
  = if decide (k ∈ PyDict.keys d) then PyDict.keys d else PyDict.keys d ++ [k].
Proof.
  destruct (decide (k ∈ PyDict.keys d)) as [Hin|Hout].
  - by apply keys_set_in.
  - rewrite set_notin by done. unfold PyDict.keys. by rewrite fmap_app.
Qed.

Lemma NoDup_keys_set k v d :
  NoDup (PyDict.keys d) → NoDup (PyDict.keys (PyDict.set k v d)).
Proof.
  intros Hnd. rewrite keys_set. case_decide; [done |].
  apply NoDup_app. split_and!; [done | | apply NoDup_singleton].
  intros x Hx ->%list_elem_of_singleton. done.
Qed.

Lemma set_same k v d :
  NoDup (PyDict.keys d) → (k, v) ∈ d → PyDict.set k v d = d.
Proof.
  unfold PyDict.keys. induction d as [|[k' v'] d IH]; simpl; intros Hnd Hin.
  - by apply elem_of_nil in Hin.
  - apply NoDup_cons in Hnd as [Hk' Hnd]. apply elem_of_cons in Hin.
    destruct (decide (k' = k)) as [->|Hne].
    + destruct Hin as [[= ->]|Hin]; [done |].
      exfalso. apply Hk'. apply list_elem_of_fmap. by exists (k, v).
    + destruct Hin as [[= -> ->]|Hin]; [done |]. by rewrite IH.
Qed.

(** Two dicts with the same keys in the same order and the same value
    at each key are the same dict. *)
Lemma dict_ext d1 d2 :
  PyDict.keys d1 = PyDict.keys d2 →
  NoDup (PyDict.keys d1) →
  (∀ k, PyDict.get k d1 = PyDict.get k d2) →
  d1 = d2.
Proof.
  unfold PyDict.keys. revert d2.
  induction d1 as [|[k1 v1] d1 IH]; intros [|[k2 v2] d2]; simpl; try done.
  intros [= -> Hk] [Hk2 Hnd]%NoDup_cons Hget.
  pose proof (Hget k2) as H2. simpl in H2. rewrite !decide_True in H2 by done.
  injection H2 as ->. f_equal. apply IH; [done..|].
  intros k. specialize (Hget k). simpl in Hget.
  destruct (decide (k2 = k)) as [->|Hne]; [|done].
  transitivity (@None V); [|symmetry]; apply get_None; unfold PyDict.keys;
    [exact Hk2 | rewrite Hk in Hk2; exact Hk2].
Qed.

End pydict.

(** ** Python's sort *)

Section pysort.
Context {A : Type}.
Implicit Types (x y : string * A) (l : list (string * A)).

Lemma insert_desc_perm x l : PySort.insert_desc x l ≡ₚ x :: l.
Proof.
  induction l as [|y l IH]; simpl; [done |].
  case_decide; [done |]. rewrite IH. apply Permutation_swap.
Qed.

Lemma sort_desc_perm l : PySort.sort_desc l ≡ₚ l.
Proof.
  induction l as [|x l IH]; simpl; [done |].
  rewrite insert_desc_perm. by rewrite IH.
Qed.

Lemma insert_desc_sorted x l :
  StronglySorted desc l → StronglySorted desc (PySort.insert_desc x l).
Proof.
  induction l as [|y l IH]; simpl; intros Hs.
  - repeat constructor.
  - apply StronglySorted_inv in Hs as [Hl Hy]. case_decide as Hyx.
    + constructor; [by constructor |]. constructor; [done |].
      eapply Forall_impl; [exact Hy |]. intros z Hz. unfold desc, date_le in *.
      by etrans.
    + constructor; [by apply IH |].
      rewrite insert_desc_perm. constructor; [|done].
      unfold desc, date_le in *. by destruct (total String.le x.1 y.1).
Qed.

Lemma sort_desc_sorted l : StronglySorted desc (PySort.sort_desc l).
Proof.
  induction l as [|x l IH]; simpl; [constructor | by apply insert_desc_sorted].
Qed.

Lemma sorted_strictly l :
  StronglySorted desc l → NoDup l.*1 → StronglySorted strictly_desc l.
Proof.
  induction 1 as [|x l Hl IH Hx]; simpl; [constructor |].
  intros [Hx1 Hnd]%NoDup_cons. constructor; [by apply IH |].
  apply Forall_forall. intros y Hy. split.
  - by apply (proj1 (Forall_forall _ _) Hx).
  - intros Heq. apply Hx1. rewrite <- Heq. apply list_elem_of_fmap. by exists y.
Qed.

Lemma strictly_desc_desc l : StronglySorted strictly_desc l → StronglySorted desc l.
Proof.
  induction 1 as [|x l Hl IH Hx]; constructor; [done |].
  eapply Forall_impl; [exact Hx |]. by intros y [? _].
Qed.

Lemma strictly_desc_NoDup l : StronglySorted strictly_desc l → NoDup l.*1.
Proof.
  induction 1 as [|x l Hl IH Hx]; simpl; constructor; [|done].
  intros (y & Heq & Hy)%list_elem_of_fmap.
  destruct (proj1 (Forall_forall _ _) Hx y Hy) as [_ Hne]. by apply Hne.
Qed.

(** Sorting a list that is already in descending order changes
    nothing. *)
Lemma sort_desc_id l : StronglySorted desc l → PySort.sort_desc l = l.
Proof.
  induction 1 as [|x l Hl IH Hx]; simpl; [done |].
  rewrite IH. destruct l as [|y l]; simpl; [done |].
  apply Forall_cons in Hx as [Hxy _]. by rewrite decide_True.
Qed.

Lemma keys_of_tagged (f : A → result string) l :
  Forall (λ x, f x.2 = Ok x.1) l → PySort.keys_of f l.*2 = Ok l.*1.
Proof.
  induction 1 as [|x l Hx Hl IH]; csimpl; [done |].
  rewrite Hx. csimpl. by rewrite IH.
Qed.

Lemma sort_reverse_tagged (f : A → result string) l :
  Forall (λ x, f x.2 = Ok x.1) l →
  PySort.sort_reverse f l.*2 = Ok (PySort.sort_desc l).*2.
Proof.
  intros Hl. unfold PySort.sort_reverse. rewrite keys_of_tagged by done.
  simpl. by rewrite zip_fst_snd.
Qed.

End pysort.

(** ** The MOT history merge *)

(** Every record of a given list of records carries a date. *)
Ltac all_dated := repeat constructor; vm_compute; eauto.

Lemma completedDate_Ok (t : MotTest) k :
  completedDate t = Ok k ↔ t !! "completedDate" = Some k.
Proof.
  unfold completedDate, getitem.
  destruct (t !! "completedDate"); naive_solver.
Qed.

Lemma completedDate_dated (t : MotTest) :
  dated t → ∃ k, completedDate t = Ok k.
Proof. intros [k Hk]. exists k. by apply completedDate_Ok. Qed.

Lemma completedDate_undated (t : MotTest) :
  ¬ dated t → completedDate t = Raise (KeyError "completedDate").
Proof.
  unfold dated, completedDate, getitem. intros Hn.
  destruct (t !! "completedDate") eqn:E; [|done].
  exfalso. apply Hn. by eexists.
Qed.

Lemma last_dated_cons d (t : MotTest) l :
  last_dated d (t :: l)
  = match last_dated d l with
    | Some x => Some x
    | None => if decide (t !! "completedDate" = Some d) then Some t else None
    end.
Proof.
  unfold last_dated. rewrite filter_cons. case_decide.
  - apply last_cons.
  - by destruct (last _).
Qed.

Lemma last_dated_None d l : last_dated d l = None ↔ Some d ∉ dates l.
Proof.
  unfold last_dated, dates. rewrite last_None. split.
  - intros Hf (t & Ht & Hin)%list_elem_of_fmap.
    by eapply filter_nil_not_elem_of.
  - intros Hn. destruct (filter _ l) as [|t l'] eqn:E; [done |].
    exfalso. apply Hn. apply list_elem_of_fmap. exists t.
    assert (t ∈ filter (λ t0 : MotTest, t0 !! "completedDate" = Some d) l)
      as [Hd Hin]%list_elem_of_filter by (rewrite E; left).
    done.
Qed.

Lemma last_dated_Some d l (t : MotTest) :
  last_dated d l = Some t → t ∈ l ∧ t !! "completedDate" = Some d.
Proof.
  unfold last_dated. intros [Hd Hin]%last_Some_elem_of%list_elem_of_filter.
  done.
Qed.

Lemma last_dated_unique d l (t : MotTest) :
  NoDup (dates l) → t ∈ l → t !! "completedDate" = Some d →
  last_dated d l = Some t.
Proof.
  unfold dates. induction l as [|x l IH]; csimpl.
  - by intros _ ?%elem_of_nil.
  - intros [Hx Hnd]%NoDup_cons [->|Hin]%elem_of_cons Hd;
      rewrite last_dated_cons.
    + assert (last_dated d l = None) as ->.
      { apply last_dated_None. unfold dates. by rewrite <- Hd. }
      by rewrite decide_True.
    + by rewrite IH.
Qed.

Lemma tagged_set k (t : MotTest) d :
  tagged d → completedDate t = Ok k → tagged (PyDict.set k t d).
Proof.
  unfold tagged. intros Hd Hk. induction Hd as [|[k' v'] d Hx Hd IH]; simpl.
  - by repeat constructor.
  - case_decide; subst; by constructor.
Qed.

Lemma fill_Ok d tests :
  Forall dated tests → ∃ d', fill d tests = Ok d'.
Proof.
  intros Ht. revert d. induction Ht as [|t tests Hd Ht IH]; intros d; simpl.
  - by eexists.
  - destruct (completedDate_dated t Hd) as [k ->]. apply IH.
Qed.

Lemma fill_Raise d tests :
  Exists (λ t, ¬ dated t) tests →
  fill d tests = Raise (KeyError "completedDate").
Proof.
  revert d. induction tests as [|t tests IH]; intros d Hex; simpl.
  - by apply Exists_nil in Hex.
  - destruct (decide (dated t)) as [Hd|Hn].
    + destruct (completedDate_dated t Hd) as [k ->]. csimpl.
      apply IH. apply Exists_cons in Hex as [?|?]; done.
    + by rewrite completedDate_undated.
Qed.

(** The dict after the assignments: the keys stay distinct, every item
    sits under its date, and a key holds the last test of that date,
    or else what it held before. *)
Lemma fill_spec tests d d' :
  fill d tests = Ok d' → NoDup (PyDict.keys d) → tagged d →
  NoDup (PyDict.keys d') ∧ tagged d' ∧
  ∀ k, PyDict.get k d'
       = from_option Some (PyDict.get k d) (last_dated k tests).
Proof.
  revert d. induction tests as [|t tests IH]; intros d; simpl.
  - intros [= ->] ??. done.
  - destruct (completedDate t) as [kt|] eqn:Ht; [|done]. csimpl.
    intros Hfill Hnd Htag.
    destruct (IH _ Hfill) as (Hnd' & Htag' & Hget).
    { by apply NoDup_keys_set. }
    { by apply tagged_set. }
    split_and!; [done..|]. intros k. rewrite Hget, last_dated_cons, get_set.
    apply completedDate_Ok in Ht.
    destruct (last_dated k tests); simpl; [done |].
    destruct (decide (kt = k)) as [->|Hne].
    + by rewrite decide_True.
    + rewrite decide_False; [done | congruence].
Qed.

Lemma fill_keys_in tests d d' :
  fill d tests = Ok d' →
  (∀ k, Some k ∈ dates tests → k ∈ PyDict.keys d) →
  PyDict.keys d' = PyDict.keys d.
Proof.
  unfold dates. revert d. induction tests as [|t tests IH]; intros d; csimpl.
  - by intros [= ->].
  - destruct (completedDate t) as [kt|] eqn:Ht; [|done]. csimpl.
    intros Hfill Hin. apply completedDate_Ok in Ht.
    assert (kt ∈ PyDict.keys d) as Hkt.
    { apply Hin. rewrite Ht. left. }
    rewrite (IH _ Hfill); [by apply keys_set_in |].
    intros k Hk. rewrite keys_set_in by done. apply Hin. by right.
Qed.

(** Filling with the values of a dict whose keys are new appends the
    dict. *)
Lemma fill_fresh (s d : PyDict.t MotTest) :
  tagged s → NoDup (PyDict.keys d ++ PyDict.keys s) →
  fill d s.*2 = Ok (d ++ s).
Proof.
  unfold tagged, PyDict.keys. intros Hs. revert d.
  induction Hs as [|[k v] s Hx Hs IH]; intros d; csimpl.
  - intros _. by rewrite app_nil_r.
  - intros Hnd. simpl in Hx. rewrite Hx. csimpl.
    rewrite set_notin.
    + rewrite IH; [by rewrite <- app_assoc |].
      rewrite fmap_app. csimpl. by rewrite <- app_assoc.
    + apply NoDup_app in Hnd as (_ & Hdis & _). intros Hk.
      apply (Hdis _ Hk). left.
Qed.

Lemma get_perm {V} (d d' : PyDict.t V) k :
  d ≡ₚ d' → NoDup (PyDict.keys d) → PyDict.get k d = PyDict.get k d'.
Proof.
  intros Hp Hnd. apply option_eq. intros v.
  rewrite !get_Some; [by rewrite Hp | | done].
  unfold PyDict.keys in *. by rewrite <- Hp.
Qed.

Lemma dates_tagged (s : PyDict.t MotTest) :
  tagged s → dates s.*2 = Some <$> s.*1.
Proof.
  unfold tagged, dates. induction 1 as [|[k v] s Hx Hs IH]; csimpl; [done |].
  apply completedDate_Ok in Hx. simpl in Hx. by rewrite Hx, IH.
Qed.

Lemma newer_tagged (s : PyDict.t MotTest) :
  tagged s → StronglySorted strictly_desc s → StronglySorted newer s.*2.
Proof.
  intros Htag Hs. induction Hs as [|[k v] s Hs IH Hx]; csimpl; [constructor |].
  apply Forall_cons in Htag as [Hv Htag]. constructor; [by apply IH |].
  apply Forall_fmap. apply Forall_forall. intros [k' v'] Hin.
  pose proof (proj1 (Forall_forall _ _) Hx _ Hin) as Hlt.
  pose proof (proj1 (Forall_forall _ _) Htag _ Hin) as Hv'.
  apply completedDate_Ok in Hv, Hv'. simpl in *.
  unfold newer. by rewrite Hv, Hv'.
Qed.

(** The merge of two sequences of dated records: the dict it builds,
    read in the order of the output. *)
Lemma merge_dict existing_data new_data :
  Forall dated existing_data → Forall dated new_data →
  ∃ s, NoDup (PyDict.keys s) ∧ tagged s ∧ StronglySorted strictly_desc s ∧
       (∀ k, PyDict.get k s
             = from_option Some (last_dated k existing_data)
                 (last_dated k new_data)) ∧
       merge_mot_data existing_data new_data = Ok s.*2.
Proof.
  intros He Hn.
  destruct (fill_Ok [] _ He) as [d1 Hd1].
  destruct (fill_Ok d1 _ Hn) as [d0 Hd0].
  destruct (fill_spec _ _ _ Hd1) as (Hnd1 & Htag1 & Hget1);
    [constructor | constructor |].
  destruct (fill_spec _ _ _ Hd0) as (Hnd0 & Htag0 & Hget0); [done.. |].
  pose proof (sort_desc_perm d0) as Hp.
  assert (NoDup (PyDict.keys (PySort.sort_desc d0))) as Hnd.
  { unfold PyDict.keys in *. by rewrite Hp. }
  exists (PySort.sort_desc d0). split_and!.
  - done.
  - unfold tagged in *. by rewrite Hp.
  - apply sorted_strictly; [apply sort_desc_sorted | done].
  - intros k. rewrite (get_perm _ d0) by done.
    rewrite Hget0, Hget1. simpl. by destruct (last_dated k existing_data).
  - unfold merge_mot_data. rewrite Hd1. csimpl. rewrite Hd0. csimpl.
    by apply sort_reverse_tagged.
Qed.

Lemma elem_of_values_get {V} (d : PyDict.t V) v :
  NoDup (PyDict.keys d) → v ∈ d.*2 ↔ ∃ k, PyDict.get k d = Some v.
Proof.
  intros Hnd. rewrite list_elem_of_fmap. split.
  - intros ([k v'] & -> & Hin). exists k. by apply get_Some.
  - intros [k Hk]. exists (k, v). split; [done |]. by apply get_Some.
Qed.

(** C3: for input sequences whose records all carry a completedDate,
    the merge returns a sequence in strictly descending order of
    completedDate, with at most one record per completedDate, and for
    every date present in both inputs the record of that date in the
    output is the incoming one (the last one, when the incoming sequence
    repeats the date). *)
Theorem merge_sorted_unique_incoming_wins existing incoming :
  Forall dated existing → Forall dated incoming →
  ∃ out, merge_mot_data existing incoming = Ok out ∧
         StronglySorted newer out ∧
         NoDup (dates out) ∧
         ∀ d, Some d ∈ dates existing → Some d ∈ dates incoming →
              ∃ t, last_dated d incoming = Some t ∧ t ∈ incoming ∧ t ∈ out ∧
                   ∀ t' : MotTest,
                     t' ∈ out → t' !! "completedDate" = Some d → t' = t.
Proof.
  intros He Hn.
  destruct (merge_dict _ _ He Hn) as (s & Hnd & Htag & Hs & Hget & Hm).
  exists s.*2. split_and!; [done | by apply newer_tagged | |].
  - rewrite dates_tagged by done. by apply (NoDup_fmap_2 Some).
  - intros d _ Hd.
    destruct (last_dated d incoming) as [t|] eqn:Ht;
      [|by apply last_dated_None in Ht].
    exists t. pose proof (Hget d) as Hgd. rewrite Ht in Hgd. simpl in Hgd.
    split_and!; [done | exact (proj1 (last_dated_Some _ _ _ Ht)) | |].
    + apply elem_of_values_get; [done | by exists d].
    + intros t' (k & Hk)%elem_of_values_get Hd'; [|done].
      assert (k = d) as ->; [|congruence].
      apply get_Some in Hk; [|done].
      pose proof (proj1 (Forall_forall _ _) Htag _ Hk) as Hkt.
      apply completedDate_Ok in Hkt. simpl in Hkt. congruence.
Qed.

Lemma merge_sorted_unique_incoming_wins_witness :
  ∃ out, merge_mot_data [test_2023; test_2024] [test_2023_failed] = Ok out ∧
         StronglySorted newer out ∧
         NoDup (dates out) ∧
         ∀ d, Some d ∈ dates [test_2023; test_2024] →
              Some d ∈ dates [test_2023_failed] →
              ∃ t, last_dated d [test_2023_failed] = Some t ∧
                   t ∈ [test_2023_failed] ∧ t ∈ out ∧
                   ∀ t' : MotTest,
                     t' ∈ out → t' !! "completedDate" = Some d → t' = t.
Proof.
  apply (merge_sorted_unique_incoming_wins
           [test_2023; test_2024] [test_2023_failed]); all_dated.
Defined.

Lemma dated_key_in (s : PyDict.t MotTest) tests k :
  (∀ k, is_Some (last_dated k tests) → is_Some (PyDict.get k s)) →
  Some k ∈ dates tests → k ∈ PyDict.keys s.
Proof.
  intros Hget Hk. destruct (decide (k ∈ PyDict.keys s)) as [|Hn]; [done |].
  apply get_None in Hn. destruct (Hget k) as [v Hv]; [|congruence].
  destruct (last_dated k tests) eqn:E; [by eexists |].
  by apply last_dated_None in E.
Qed.

(** Merging the same incoming records a second time changes nothing. *)
Lemma merge_idem existing incoming :
  Forall dated existing → Forall dated incoming →
  ∃ out, merge_mot_data existing incoming = Ok out ∧
         merge_mot_data out incoming = Ok out.
Proof.
  intros He Hn.
  destruct (merge_dict _ _ He Hn) as (s & Hnd & Htag & Hs & Hget & Hm).
  exists s.*2. split; [done |].
  destruct (fill_Ok s _ Hn) as [d2 Hd2].
  destruct (fill_spec _ _ _ Hd2) as (Hnd2 & Htag2 & Hget2); [done.. |].
  assert (d2 = s) as ->.
  { apply dict_ext; [|done|].
    - apply (fill_keys_in incoming); [done |]. intros k Hk.
      apply (dated_key_in _ incoming); [|done].
      intros k' [t Ht]. rewrite Hget, Ht. by eexists.
    - intros k. rewrite Hget2. destruct (last_dated k incoming) eqn:E; [|done].
      simpl. by rewrite Hget, E. }
  unfold merge_mot_data.
  rewrite (fill_fresh s []) by done. csimpl. rewrite Hd2. csimpl.
  unfold PyDict.values. rewrite sort_reverse_tagged by done.
  by rewrite sort_desc_id by by apply strictly_desc_desc.
Qed.

(** Merging a sequence with itself is merging it with nothing. *)
Lemma merge_self x :
  Forall dated x → merge_mot_data x x = merge_mot_data x [].
Proof.
  intros Hx. destruct (fill_Ok [] _ Hx) as [d1 Hd1].
  destruct (fill_spec _ _ _ Hd1) as (Hnd1 & Htag1 & Hget1);
    [constructor | constructor |].
  destruct (fill_Ok d1 _ Hx) as [d2 Hd2].
  destruct (fill_spec _ _ _ Hd2) as (Hnd2 & Htag2 & Hget2); [done.. |].
  assert (d2 = d1) as ->.
  { apply dict_ext; [|done|].
    - apply (fill_keys_in x); [done |]. intros k Hk.
      apply (dated_key_in _ x); [|done].
      intros k' [t Ht]. rewrite Hget1, Ht. by eexists.
    - intros k. rewrite Hget2, Hget1. by destruct (last_dated k x). }
  unfold merge_mot_data. rewrite Hd1. csimpl. by rewrite Hd2.
Qed.

(** With pairwise distinct dates, merging with nothing only reorders. *)
Lemma merge_nil_perm x :
  Forall dated x → NoDup (dates x) →
  ∃ out, merge_mot_data x [] = Ok out ∧ out ≡ₚ x ∧ StronglySorted newer out.
Proof.
  intros Hx Hndx.
  destruct (merge_dict x [] Hx) as (s & Hnd & Htag & Hs & Hget & Hm);
    [constructor |].
  exists s.*2. split_and!; [done | | by apply newer_tagged].
  apply NoDup_Permutation.
  - apply (NoDup_fmap_1 (λ t : MotTest, t !! "completedDate")).
    fold (dates s.*2). rewrite dates_tagged by done.
    by apply (NoDup_fmap_2 Some).
  - by apply (NoDup_fmap_1 (λ t : MotTest, t !! "completedDate")).
  - intros v. rewrite elem_of_values_get by done. split.
    + intros [k Hk]. rewrite Hget in Hk. simpl in Hk.
      destruct (last_dated k x) eqn:E; [|done]. simpl in Hk.
      injection Hk as ->. by apply last_dated_Some in E as [? _].
    + intros Hv.
      destruct (proj1 (Forall_forall _ _) Hx _ Hv) as [k Hk].
      exists k. rewrite Hget. simpl.
      by rewrite (last_dated_unique k x v).
Qed.

(** ** The store *)

Section rows.
Implicit Types (l : list VehicleCache) (v : VehicleCache) (reg : string).

(** Writing back a row that keeps its registration moves no row. *)
Lemma list_find_set_row l i v v' reg :
  l !! i = Some v → registration_number v' = registration_number v →
  list_find (λ y, registration_number y = reg) (<[i := v']> l)
  = (λ p, (p.1, if decide (p.1 = i) then v' else p.2))
      <$> list_find (λ y, registration_number y = reg) l.
Proof.
  revert i. induction l as [|x l IH]; intros [|i]; csimpl; try done.
  - intros [= ->] Hreg. rewrite Hreg.
    destruct (decide (registration_number v = reg)); [done |].
    destruct (list_find _ l) as [[j y]|]; [|done]. done.
  - intros Hi Hreg.
    destruct (decide (registration_number x = reg)); [done |].
    rewrite (IH i) by done.
    destruct (list_find _ l) as [[j y]|]; csimpl; [|done].
    destruct (decide (j = i)) as [->|Hne].
    + by rewrite decide_True.
    + rewrite decide_False; [done | lia].
Qed.

Lemma list_find_set_found l i v v' reg :
  list_find (λ y, registration_number y = reg) l = Some (i, v) →
  registration_number v' = registration_number v →
  list_find (λ y, registration_number y = reg) (<[i := v']> l) = Some (i, v').
Proof.
  intros Hf Hreg. pose proof Hf as (Hi & _)%list_find_Some.
  rewrite (list_find_set_row l i v) by done. rewrite Hf. csimpl.
  by rewrite decide_True.
Qed.

Lemma list_find_add l v reg :
  list_find (λ y, registration_number y = reg) l = None →
  registration_number v = reg →
  list_find (λ y, registration_number y = reg) (l ++ [v])
  = Some (length l, v).
Proof.
  intros Hn Hv. rewrite list_find_app_r by done. csimpl.
  by rewrite decide_True.
Qed.

End rows.

(** The upsert of a registration that has a row, when the merge
    returns: the row is rewritten in place and committed. *)
Lemma cache_existing now reg data s i vehicle merged :
  list_find (λ v, registration_number v = reg) (vehicle_cache (pending s))
  = Some (i, vehicle) →
  merge_mot_data (default [] (mot_data vehicle)) (default [] (motTests data))
  = Ok merged →
  let t :=
    {| vehicle_cache :=
         <[i := refresh (overwrite_scalars vehicle data) merged now]>
           (vehicle_cache (pending s));
       request_logs := request_logs (pending s) |} in
  cache_vehicle_data now reg data s
  = (Ok (), {| pending := t; committed := t; fetched := fetched s |}).
Proof.
  intros Hf Hm. unfold cache_vehicle_data, mbind, M_bind, query_first.
  rewrite Hf. simpl. rewrite Hm. simpl.
  by rewrite list_insert_insert_eq.
Qed.

(** The upsert of a registration that has a row, when the merge
    raises: the exception leaves the call before the commit. *)
Lemma cache_raises now reg data s i vehicle e :
  list_find (λ v, registration_number v = reg) (vehicle_cache (pending s))
  = Some (i, vehicle) →
  merge_mot_data (default [] (mot_data vehicle)) (default [] (motTests data))
  = Raise e →
  (cache_vehicle_data now reg data s).1 = Raise e ∧
  committed (cache_vehicle_data now reg data s).2 = committed s.
Proof.
  intros Hf Hm. unfold cache_vehicle_data, mbind, M_bind, query_first.
  rewrite Hf. simpl. by rewrite Hm.
Qed.

(** The upsert of a registration that has no row. *)
Lemma cache_new now reg data s :
  list_find (λ v, registration_number v = reg) (vehicle_cache (pending s))
  = None →
  let t :=
    {| vehicle_cache := vehicle_cache (pending s) ++ [new_vehicle reg data now];
       request_logs := request_logs (pending s) |} in
  cache_vehicle_data now reg data s
  = (Ok (), {| pending := t; committed := t; fetched := fetched s |}).
Proof.
  intros Hf. unfold cache_vehicle_data, mbind, M_bind, query_first.
  by rewrite Hf.
Qed.

(** C10: the merge returns only when every record of both inputs
    carries a completedDate.  If some record lacks it, the merge raises
    the lookup error [KeyError], and so does the upsert of a
    registration that has a row, which calls the merge on the stored
    history and the fresh tests; that upsert commits nothing. *)
Theorem merge_requires_dates existing incoming :
  (∀ out, merge_mot_data existing incoming = Ok out →
          Forall dated (existing ++ incoming)) ∧
  (Exists (λ t, ¬ dated t) (existing ++ incoming) →
   merge_mot_data existing incoming = Raise (KeyError "completedDate") ∧
   ∀ now reg data s i vehicle,
     list_find (λ v, registration_number v = reg) (vehicle_cache (pending s))
     = Some (i, vehicle) →
     default [] (mot_data vehicle) = existing →
     default [] (motTests data) = incoming →
     (cache_vehicle_data now reg data s).1 = Raise (KeyError "completedDate") ∧
     committed (cache_vehicle_data now reg data s).2 = committed s).
Proof.
  assert (Exists (λ t, ¬ dated t) (existing ++ incoming) →
          merge_mot_data existing incoming = Raise (KeyError "completedDate"))
    as Hraise.
  { intros [He|Hn]%Exists_app; unfold merge_mot_data.
    - by rewrite fill_Raise.
    - destruct (fill [] existing) as [d|e] eqn:E; csimpl.
      + by rewrite fill_Raise.
      + destruct (decide (Forall dated existing)) as [Hd|Hd].
        * destruct (fill_Ok [] _ Hd) as [d Hd']. congruence.
        * apply not_Forall_Exists in Hd; [|apply _].
          rewrite fill_Raise in E by done. congruence. }
  split.
  - intros out Hout.
    destruct (decide (Forall dated (existing ++ incoming))) as [|Hn]; [done |].
    apply not_Forall_Exists in Hn; [|apply _].
    rewrite Hraise in Hout by done. done.
  - intros Hex. split; [by apply Hraise |].
    intros now reg data s i vehicle Hf <- <-.
    apply (cache_raises _ _ _ _ i vehicle); [done | by apply Hraise].
Qed.

Lemma merge_requires_dates_witness :
  merge_mot_data [test_2023; test_undated] [test_2024]
  = Raise (KeyError "completedDate") ∧
  let s := open_session
             (tables_of [row_AB12CDE (Some [test_2023; test_undated]) 0 1]) [] in
  let data := {| fields := ∅; motTests := Some [test_2024] |} in
  (cache_vehicle_data 5 "AB12CDE" data s).1 = Raise (KeyError "completedDate") ∧
  committed (cache_vehicle_data 5 "AB12CDE" data s).2 = committed s.
Proof.
  assert (Exists (λ t, ¬ dated t) ([test_2023; test_undated] ++ [test_2024]))
    as Hex.
  { apply Exists_cons_tl, Exists_cons_hd. by vm_compute; intros [? [=]]. }
  destruct (merge_requires_dates [test_2023; test_undated] [test_2024])
    as [_ Hm].
  destruct (Hm Hex) as [Hraise Hupsert]. split; [exact Hraise |].
  apply (Hupsert 5 "AB12CDE" _ _ 0%nat
           (row_AB12CDE (Some [test_2023; test_undated]) 0 1));
    reflexivity.
Defined.

(** C7, as stated, fails on a fresh document that holds a key with the
    value null: [data.get(key, old)] returns the null and the column is
    overwritten with it, the old value is not retained. *)
Lemma upsert_null_overwrites :
  let old := row_AB12CDE (Some [test_2023]) 0 1 in
  let data := {| fields := {[ "make" := VNull ]}; motTests := None |} in
  let s := open_session (tables_of [old]) [] in
  fields data !! "make" = Some VNull ∧
  (cache_vehicle_data 5 "AB12CDE" data s).1 = Ok () ∧
  make <$> find_row "AB12CDE" (committed (cache_vehicle_data 5 "AB12CDE" data s).2)
  = Some VNull ∧
  Some VNull ≠ Some (make old).
Proof. vm_compute. split_and!; done. Qed.

(** C7, amended: when upsert is applied to a registration that has a
    row and the stored and the fresh tests all carry a completedDate,
    it returns and commits; every scalar column takes the value the
    fresh document holds under its key whenever the key is present,
    also when that value is null, and keeps its old value only when the
    key is absent; the MOT history becomes the merge of the stored
    history (base) with the fresh tests (incoming); lastUpdated and
    lastRequested are set to now and requestCount grows by one. *)
Theorem upsert_existing now reg data s i vehicle :
  list_find (λ v, registration_number v = reg) (vehicle_cache (pending s))
  = Some (i, vehicle) →
  Forall dated (default [] (mot_data vehicle)) →
  Forall dated (default [] (motTests data)) →
  ∃ merged vehicle',
    merge_mot_data (default [] (mot_data vehicle)) (default [] (motTests data))
    = Ok merged ∧
    (cache_vehicle_data now reg data s).1 = Ok () ∧
    pending (cache_vehicle_data now reg data s).2
    = committed (cache_vehicle_data now reg data s).2 ∧
    list_find (λ v, registration_number v = reg)
      (vehicle_cache (committed (cache_vehicle_data now reg data s).2))
    = Some (i, vehicle') ∧
    Forall (λ kc : string * (VehicleCache → value),
              kc.2 vehicle' = match fields data !! kc.1 with
                              | Some fresh => fresh
                              | None => kc.2 vehicle
                              end) scalar_columns ∧
    registration_number vehicle' = registration_number vehicle ∧
    mot_data vehicle' = Some merged ∧
    last_updated vehicle' = now ∧
    last_requested vehicle' = now ∧
    request_count vehicle' = request_count vehicle + 1.
Proof.
  intros Hf He Hn.
  destruct (merge_dict _ _ He Hn) as (d & _ & _ & _ & _ & Hm).
  exists d.*2, (refresh (overwrite_scalars vehicle data) d.*2 now).
  rewrite (cache_existing _ _ _ _ _ _ _ Hf Hm). simpl.
  split_and!; try done.
  - by apply (list_find_set_found _ _ vehicle).
  - unfold scalar_columns, get_or.
    repeat (constructor;
            [simpl; unfold get_or; by destruct (fields data !! _) |]).
    constructor.
Qed.

Lemma upsert_existing_witness :
  let vehicle := row_AB12CDE (Some [test_2023]) 0 1 in
  let s := open_session (tables_of [vehicle]) [] in
  let data := fresh_AB12CDE in
  ∃ merged vehicle',
    merge_mot_data (default [] (mot_data vehicle)) (default [] (motTests data))
    = Ok merged ∧
    (cache_vehicle_data 5 "AB12CDE" data s).1 = Ok () ∧
    pending (cache_vehicle_data 5 "AB12CDE" data s).2
    = committed (cache_vehicle_data 5 "AB12CDE" data s).2 ∧
    list_find (λ v, registration_number v = "AB12CDE")
      (vehicle_cache (committed (cache_vehicle_data 5 "AB12CDE" data s).2))
    = Some (0%nat, vehicle') ∧
    Forall (λ kc : string * (VehicleCache → value),
              kc.2 vehicle' = match fields data !! kc.1 with
                              | Some fresh => fresh
                              | None => kc.2 vehicle
                              end) scalar_columns ∧
    registration_number vehicle' = registration_number vehicle ∧
    mot_data vehicle' = Some merged ∧
    last_updated vehicle' = 5 ∧
    last_requested vehicle' = 5 ∧
    request_count vehicle' = request_count vehicle + 1.
Proof.
  apply (upsert_existing 5 "AB12CDE" fresh_AB12CDE
           (open_session (tables_of [row_AB12CDE (Some [test_2023]) 0 1]) [])
           0%nat (row_AB12CDE (Some [test_2023]) 0 1));
    [reflexivity | all_dated | all_dated].
Defined.

(** C4, as stated, fails on a sequence that repeats a date: the merge
    with nothing keeps one record per date, so its output is not a
    reordering of the input; and the first upsert of a registration
    stores the fresh tests as they come, so a second upsert of the same
    fresh data drops a record that the first one stored. *)
Lemma merge_nil_drops_repeated_date :
  let x := [test_2023; test_2023_failed] in
  let data := {| fields := ∅; motTests := Some x |} in
  let once := cache_vehicle_data 5 "AB12CDE" data (open_session (tables_of []) []) in
  let twice := cache_vehicle_data 6 "AB12CDE" data once.2 in
  merge_mot_data x [] = Ok [test_2023_failed] ∧
  ¬ ([test_2023_failed] ≡ₚ x) ∧
  (find_row "AB12CDE" (committed once.2) ≫= mot_data) = Some x ∧
  (find_row "AB12CDE" (committed twice.2) ≫= mot_data) = Some [test_2023_failed] ∧
  test_2023 ∉ [test_2023_failed].
Proof.
  split_and!; [by vm_compute | | by vm_compute | by vm_compute |].
  - intros Hp. by apply Permutation_length in Hp.
  - intros [=]%list_elem_of_singleton.
Qed.

(** A merge with nothing keeps, for each date, the last record of that
    date, and nothing else. *)
Lemma merge_nil_last x :
  Forall dated x →
  ∃ out, merge_mot_data x [] = Ok out ∧
         StronglySorted newer out ∧
         ∀ d (t : MotTest),
           t ∈ out ∧ t !! "completedDate" = Some d ↔ last_dated d x = Some t.
Proof.
  intros Hx.
  destruct (merge_dict x [] Hx) as (s & Hnd & Htag & Hs & Hget & Hm);
    [constructor |].
  exists s.*2. split_and!; [done | by apply newer_tagged |].
  intros d t. rewrite elem_of_values_get by done. split.
  - intros [[k Hk] Hd].
    assert (k = d) as ->.
    { apply get_Some in Hk; [|done].
      pose proof (proj1 (Forall_forall _ _) Htag _ Hk) as Hkt.
      apply completedDate_Ok in Hkt. simpl in Hkt. congruence. }
    rewrite Hget in Hk. exact Hk.
  - intros Hl. split; [|by apply last_dated_Some in Hl as [_ ?]].
    exists d. rewrite Hget. exact Hl.
Qed.

(** C4, amended: on records that all carry a completedDate, for any Y
    merge(Y, Y) equals merge(Y, []), which keeps, in descending order
    of date, the last record of each date of Y and nothing else; if
    the dates of X are pairwise distinct then merge(X, []) and
    merge(X, X) are the same reordering of X in descending order of
    date; merging the same incoming records a second time changes
    nothing; consequently two upserts of the same fresh data on a
    registration that has a row leave the MOT history the first one
    left, and on a registration that has no row they leave the same
    records up to order when the dates of the fresh tests are pairwise
    distinct, while lastUpdated is set anew and requestCount advances
    by one each time (from 0 where there was no row). *)
Theorem merge_identities x y existing incoming now1 now2 reg data s :
  Forall dated x → NoDup (dates x) →
  Forall dated y →
  Forall dated existing → Forall dated incoming →
  Forall dated (default [] (find_row reg (pending s) ≫= mot_data)) →
  Forall dated (default [] (motTests data)) →
  (find_row reg (pending s) = None →
   NoDup (dates (default [] (motTests data)))) →
  (merge_mot_data y y = merge_mot_data y [] ∧
   ∃ out, merge_mot_data y [] = Ok out ∧
          StronglySorted newer out ∧
          ∀ d (t : MotTest),
            t ∈ out ∧ t !! "completedDate" = Some d
            ↔ last_dated d y = Some t) ∧
  (∃ out, merge_mot_data x [] = Ok out ∧ merge_mot_data x x = Ok out ∧
          out ≡ₚ x ∧ StronglySorted newer out) ∧
  (∃ out, merge_mot_data existing incoming = Ok out ∧
          merge_mot_data out incoming = Ok out) ∧
  let once := cache_vehicle_data now1 reg data s in
  let twice := cache_vehicle_data now2 reg data once.2 in
  once.1 = Ok () ∧ twice.1 = Ok () ∧
  ∃ v1 v2 h1 h2,
    find_row reg (committed once.2) = Some v1 ∧
    find_row reg (committed twice.2) = Some v2 ∧
    mot_data v1 = Some h1 ∧ mot_data v2 = Some h2 ∧
    h1 ≡ₚ h2 ∧
    (is_Some (find_row reg (pending s)) → h1 = h2) ∧
    last_updated v1 = now1 ∧ last_updated v2 = now2 ∧
    request_count v1
    = default 0 (request_count <$> find_row reg (pending s)) + 1 ∧
    request_count v2 = request_count v1 + 1.
Proof.
  intros Hx Hndx Hy He Hi Hstored Hfresh Hndf. split_and!.
  - by apply merge_self.
  - by apply merge_nil_last.
  - destruct (merge_nil_perm x Hx Hndx) as (out & Hm & Hp & Hs).
    exists out. by rewrite merge_self.
  - by apply merge_idem.
  - unfold find_row in *.
    destruct (list_find _ (vehicle_cache (pending s))) as [[i v]|] eqn:Hf;
      simpl in *.
    + destruct (merge_idem _ _ Hstored Hfresh) as (out & Hm1 & Hm2).
      rewrite (cache_existing _ _ _ _ _ _ _ Hf Hm1). simpl.
      set (v1 := refresh (overwrite_scalars v data) out now1).
      assert (list_find (λ y, registration_number y = reg)
                (<[i := v1]> (vehicle_cache (pending s))) = Some (i, v1))
        as Hf1 by by apply (list_find_set_found _ _ v).
      rewrite (cache_existing now2 reg data _ i v1 out); [|done..]. simpl.
      set (v2 := refresh (overwrite_scalars v1 data) out now2).
      split_and!; [done.. |]. exists v1, v2, out, out.
      rewrite Hf1. rewrite (list_find_set_found _ _ v1 v2 reg Hf1 eq_refl).
      by split_and!.
    + rewrite (cache_new _ _ _ _ Hf). simpl.
      set (v1 := new_vehicle reg data now1).
      pose proof (list_find_add _ v1 reg Hf eq_refl) as Hf1.
      destruct (merge_nil_perm _ Hfresh (Hndf eq_refl)) as (out & Hm & Hp & _).
      rewrite <- merge_self in Hm by done.
      rewrite (cache_existing now2 reg data _ (length (vehicle_cache (pending s)))
                 v1 out); [|done..]. simpl.
      set (v2 := refresh (overwrite_scalars v1 data) out now2).
      split_and!; [done.. |].
      exists v1, v2, (default [] (motTests data)), out.
      rewrite Hf1. rewrite (list_find_set_found _ _ v1 v2 reg Hf1 eq_refl).
      by split_and!.
Qed.

Lemma merge_identities_witness :
  let x := [test_2023; test_2024] in
  let y := [test_2023; test_2023_failed; test_2024] in
  let s := open_session (tables_of [row_AB12CDE (Some [test_2024]) 0 1]) [] in
  let data := fresh_AB12CDE in
  (merge_mot_data y y = merge_mot_data y [] ∧
   ∃ out, merge_mot_data y [] = Ok out ∧
          StronglySorted newer out ∧
          ∀ d (t : MotTest),
            t ∈ out ∧ t !! "completedDate" = Some d
            ↔ last_dated d y = Some t) ∧
  (∃ out, merge_mot_data x [] = Ok out ∧ merge_mot_data x x = Ok out ∧
          out ≡ₚ x ∧ StronglySorted newer out) ∧
  (∃ out, merge_mot_data [test_2023] [test_2023_failed] = Ok out ∧
          merge_mot_data out [test_2023_failed] = Ok out) ∧
  let once := cache_vehicle_data 5 "AB12CDE" data s in
  let twice := cache_vehicle_data 6 "AB12CDE" data once.2 in
  once.1 = Ok () ∧ twice.1 = Ok () ∧
  ∃ v1 v2 h1 h2,
    find_row "AB12CDE" (committed once.2) = Some v1 ∧
    find_row "AB12CDE" (committed twice.2) = Some v2 ∧
    mot_data v1 = Some h1 ∧ mot_data v2 = Some h2 ∧
    h1 ≡ₚ h2 ∧
    (is_Some (find_row "AB12CDE" (pending s)) → h1 = h2) ∧
    last_updated v1 = 5 ∧ last_updated v2 = 6 ∧
    request_count v1
    = default 0 (request_count <$> find_row "AB12CDE" (pending s)) + 1 ∧
    request_count v2 = request_count v1 + 1.
Proof.
  apply (merge_identities [test_2023; test_2024]
           [test_2023; test_2023_failed; test_2024] [test_2023]
           [test_2023_failed] 5 6 "AB12CDE" fresh_AB12CDE
           (open_session (tables_of [row_AB12CDE (Some [test_2024]) 0 1]) []));
    [all_dated | apply (bool_decide_unpack _); by vm_compute
    | all_dated | all_dated | all_dated | all_dated | all_dated
    | by vm_compute].
Defined.

(** ** The staleness policy *)

Lemma days_ge_1 delta : 1 ≤ days delta ↔ 86400000000 ≤ delta.
Proof.
  unfold days. split; intros H.
  - destruct (decide (86400000000 ≤ delta)) as [|Hn]; [done |].
    assert (delta `div` 86400000000 < 1); [|lia].
    apply Z.div_lt_upper_bound; lia.
  - apply Z.div_le_lower_bound; lia.
Qed.

(** C2: for a stored record, [get] returns absent exactly when the
    number of whole days between lastUpdated and now is at least 1.
    A record refreshed 24 hours and 1 second ago is absent, and it is
    left in the store as it is; a record refreshed 23 hours and 59
    minutes ago is a fresh hit, returned with its requestCount
    incremented and its lastRequested set to now, both committed. *)
Theorem get_absent_iff_stale now reg s i vehicle :
  list_find (λ v, registration_number v = reg) (vehicle_cache (pending s))
  = Some (i, vehicle) →
  let r := get_cached_vehicle_data now reg s in
  let age := now - last_updated vehicle in
  (r.1 = Ok None ↔ 1 ≤ days age) ∧
  (1 ≤ days age → r.2 = s) ∧
  (days age < 1 →
   pending r.2 = committed r.2 ∧
   list_find (λ v, registration_number v = reg) (vehicle_cache (committed r.2))
   = Some (i, touch vehicle now) ∧
   request_count (touch vehicle now) = request_count vehicle + 1 ∧
   last_requested (touch vehicle now) = now ∧
   last_updated (touch vehicle now) = last_updated vehicle ∧
   mot_data (touch vehicle now) = mot_data vehicle ∧
   ∀ tests, mot_data vehicle = Some tests →
            r.1 = Ok (Some {| fields := columns (touch vehicle now);
                              motTests := Some tests |})) ∧
  (age = (24 * 3600 + 1) * 1000000 → r.1 = Ok None) ∧
  (age = (23 * 3600 + 59 * 60) * 1000000 →
   r.1 ≠ Ok None ∧
   ∀ tests, mot_data vehicle = Some tests → ∃ data, r.1 = Ok (Some data)).
Proof.
  intros Hf r age.
  assert (1 ≤ days age → r = (Ok None, s)) as Hstale.
  { intros Hd. subst r.
    unfold get_cached_vehicle_data, mbind, M_bind, query_first.
    rewrite Hf. simpl. by rewrite bool_decide_eq_true_2. }
  assert (days age < 1 →
          r = (match mot_data vehicle with
               | Some tests =>
                   Ok (Some {| fields := columns (touch vehicle now);
                               motTests := Some tests |})
               | None => Raise TypeError
               end,
               let t := {| vehicle_cache :=
                             <[i := touch vehicle now]> (vehicle_cache (pending s));
                           request_logs := request_logs (pending s) |} in
               {| pending := t; committed := t; fetched := fetched s |}))
    as Hfresh.
  { intros Hd. subst r.
    unfold get_cached_vehicle_data, mbind, M_bind, query_first.
    rewrite Hf. simpl. rewrite bool_decide_eq_false_2 by (fold age; lia).
    simpl. by destruct (mot_data vehicle). }
  assert (r.1 = Ok None ↔ 1 ≤ days age) as Hiff.
  { split; [|by intros ->%Hstale].
    intros Hr. destruct (decide (1 ≤ days age)) as [|Hn]; [done |].
    rewrite Hfresh in Hr by lia. simpl in Hr. by destruct (mot_data vehicle). }
  assert (age = (23 * 3600 + 59 * 60) * 1000000 → days age < 1) as H2359.
  { intros Hage. destruct (decide (1 ≤ days age)) as [Hd%days_ge_1|]; lia. }
  split_and!.
  - done.
  - by intros ->%Hstale.
  - intros ->%Hfresh. simpl. split_and!; try done.
    + by apply (list_find_set_found _ _ vehicle).
    + by intros tests ->.
  - intros Hage. rewrite Hstale; [done |]. apply days_ge_1. lia.
  - intros Hd%H2359. split; [rewrite Hiff; lia |].
    intros tests Htests. rewrite Hfresh, Htests by done. by eexists.
Qed.

Lemma get_absent_iff_stale_witness :
  let vehicle := row_AB12CDE (Some [test_2023]) 1000000 1 in
  let s := open_session (tables_of [vehicle]) [] in
  let now := 1000000 + (24 * 3600 + 1) * 1000000 in
  let r := get_cached_vehicle_data now "AB12CDE" s in
  let age := now - last_updated vehicle in
  (r.1 = Ok None ↔ 1 ≤ days age) ∧
  (1 ≤ days age → r.2 = s) ∧
  (days age < 1 →
   pending r.2 = committed r.2 ∧
   list_find (λ v, registration_number v = "AB12CDE")
     (vehicle_cache (committed r.2))
   = Some (0%nat, touch vehicle now) ∧
   request_count (touch vehicle now) = request_count vehicle + 1 ∧
   last_requested (touch vehicle now) = now ∧
   last_updated (touch vehicle now) = last_updated vehicle ∧
   mot_data (touch vehicle now) = mot_data vehicle ∧
   ∀ tests, mot_data vehicle = Some tests →
            r.1 = Ok (Some {| fields := columns (touch vehicle now);
                              motTests := Some tests |})) ∧
  (age = (24 * 3600 + 1) * 1000000 → r.1 = Ok None) ∧
  (age = (23 * 3600 + 59 * 60) * 1000000 →
   r.1 ≠ Ok None ∧
   ∀ tests, mot_data vehicle = Some tests → ∃ data, r.1 = Ok (Some data)).
Proof.
  apply (get_absent_iff_stale (1000000 + (24 * 3600 + 1) * 1000000) "AB12CDE"
           (open_session
              (tables_of [row_AB12CDE (Some [test_2023]) 1000000 1]) [])
           0%nat (row_AB12CDE (Some [test_2023]) 1000000 1));
    reflexivity.
Defined.

(** ** The rate limiter *)

Lemma filter_all {A} (P : A → Prop) `{∀ x, Decision (P x)} (l : list A) :
  Forall P l → filter P l = l.
Proof.
  induction 1 as [|x l Hx Hl IH]; [done |].
  by rewrite filter_cons, decide_True, IH.
Qed.

Lemma filter_none {A} (P : A → Prop) `{∀ x, Decision (P x)} (l : list A) :
  Forall (λ x, ¬ P x) l → filter P l = [].
Proof.
  induction 1 as [|x l Hx Hl IH]; [done |].
  by rewrite filter_cons, decide_False.
Qed.

(** One call: the list of the client is pruned, the call is appended,
    and the verdict compares the length with the maximum. *)
Lemma is_rate_limited_eq self ip now :
  let kept := filter (λ req_time, now - req_time ≤ window_size self)
                     (requests self !!! ip) ++ [now] in
  is_rate_limited self ip now
  = (bool_decide (Z.of_nat (length kept) > max_requests self),
     {| window_size := window_size self;
        max_requests := max_requests self;
        requests := <[ip := kept]> (requests self) |}).
Proof.
  unfold is_rate_limited, _cleanup_old_requests. simpl.
  by rewrite !lookup_total_insert_eq, insert_insert_eq.
Qed.

Lemma calls_cons self ip t times :
  calls self ip (t :: times)
  = ((is_rate_limited self ip t).1
       :: (calls (is_rate_limited self ip t).2 ip times).1,
     (calls (is_rate_limited self ip t).2 ip times).2).
Proof.
  cbn [calls]. destruct (is_rate_limited self ip t) as [limited self'].
  simpl. by destruct (calls self' ip times).
Qed.

Lemma calls_config self ip times :
  window_size (calls self ip times).2 = window_size self ∧
  max_requests (calls self ip times).2 = max_requests self.
Proof.
  revert self. induction times as [|t times IH]; intros self; [done |].
  rewrite calls_cons, is_rate_limited_eq. cbn [fst snd].
  by destruct (IH {| window_size := window_size self;
                     max_requests := max_requests self;
                     requests := <[ip := filter (λ req_time, t - req_time ≤ window_size self)
                                            (requests self !!! ip) ++ [t]]>
                                   (requests self) |}).
Qed.

(** Calls that all fall within the window of one another: nothing is
    pruned, and the calls are admitted as long as the list fits. *)
Lemma calls_within self ip times l0 :
  requests self !!! ip = l0 →
  (∀ e t, e ∈ l0 → t ∈ times → t - e ≤ window_size self) →
  (∀ t t', t ∈ times → t' ∈ times → t' - t ≤ window_size self) →
  requests (calls self ip times).2 !!! ip = l0 ++ times ∧
  (Z.of_nat (length l0 + length times) ≤ max_requests self →
   Forall (λ limited, limited = false) (calls self ip times).1).
Proof.
  revert self l0. induction times as [|t times IH]; intros self l0 Hl0 H0 Hp.
  - simpl. by rewrite app_nil_r.
  - rewrite calls_cons, is_rate_limited_eq. cbn [fst snd]. rewrite Hl0.
    rewrite filter_all.
    2:{ apply Forall_forall. intros e He. apply H0; [done | left]. }
    set (self' := {| window_size := window_size self;
                     max_requests := max_requests self;
                     requests := <[ip := l0 ++ [t]]> (requests self) |}).
    destruct (IH self' (l0 ++ [t])) as [Hreq Hadm].
    { simpl. by rewrite lookup_total_insert_eq. }
    { simpl. intros e t' [He| ->%list_elem_of_singleton]%elem_of_app Ht'.
      - apply H0; [done | by right].
      - apply Hp; [left | by right]. }
    { simpl. intros t1 t2 H1 H2. apply Hp; by right. }
    simpl in Hadm. split.
    + by rewrite Hreq, <- app_assoc.
    + intros Hlen. simpl in Hlen. constructor.
      * apply bool_decide_eq_false_2. rewrite length_app. simpl. lia.
      * apply Hadm. rewrite length_app. simpl. lia.
Qed.

Lemma calls_elems self ip times t :
  t ∈ requests (calls self ip times).2 !!! ip →
  t ∈ requests self !!! ip ∨ t ∈ times.
Proof.
  revert self. induction times as [|t0 times IH]; intros self.
  - by left.
  - rewrite calls_cons, is_rate_limited_eq. cbn [fst snd].
    intros [Hin|Hin]%IH; [|right; by right].
    simpl in Hin. rewrite lookup_total_insert_eq in Hin.
    apply elem_of_app in Hin as [[_ Hin]%list_elem_of_filter
                                | ->%list_elem_of_singleton].
    + by left.
    + right. left.
Qed.

(** C5: for one client key, a call prunes the timestamps that are
    older than the window of W, records the call whatever the verdict,
    and admits exactly when the resulting count is at most M; the lists
    of the other clients and the configuration are untouched.  After M
    calls that all fall within W of one another and of a further call,
    made on a client without history, the M calls were admitted and the
    further one, the (M+1)th, is rejected.  A call made more than W
    after every earlier call of the client is admitted again (M being
    at least 1, as it is once a call was admitted), and only that call
    remains recorded. *)
Theorem rate_limiter_sliding_window self ip now times :
  let W := window_size self in
  let M := max_requests self in
  let r := is_rate_limited self ip now in
  let r' := is_rate_limited (calls self ip times).2 ip now in
  (requests r.2 !!! ip
   = filter (λ t, now - t ≤ W) (requests self !!! ip) ++ [now] ∧
   window_size r.2 = W ∧ max_requests r.2 = M ∧
   ∀ ip', ip' ≠ ip → requests r.2 !! ip' = requests self !! ip') ∧
  (r.1 = false ↔ Z.of_nat (length (requests r.2 !!! ip)) ≤ M) ∧
  (r.1 = false → 1 ≤ M) ∧
  (requests self !!! ip = [] → Z.of_nat (length times) = M →
   (∀ t t', t ∈ times → t' ∈ times ++ [now] → t' - t ≤ W) →
   Forall (λ limited, limited = false) (calls self ip times).1 ∧
   r'.1 = true) ∧
  (requests self !!! ip = [] → 1 ≤ M →
   (∀ t, t ∈ times → W < now - t) →
   r'.1 = false ∧ requests r'.2 !!! ip = [now]).
Proof.
  intros W M r r'. subst r r'. rewrite !is_rate_limited_eq. cbn [fst snd].
  destruct (calls_config self ip times) as [HW HM].
  split; [|split; [|split; [|split]]].
  - simpl. rewrite lookup_total_insert_eq. split_and!; try done.
    intros ip' Hne. by rewrite lookup_insert_ne.
  - simpl. rewrite lookup_total_insert_eq.
    rewrite bool_decide_eq_false. fold M. lia.
  - rewrite bool_decide_eq_false, length_app. simpl. fold M. lia.
  - intros Hnil Hlen Hspan.
    destruct (calls_within self ip times [] Hnil) as [Hreq Hadm].
    { by intros e t ?%elem_of_nil. }
    { intros t t' Ht Ht'. apply Hspan; [done |]. apply elem_of_app. by left. }
    split; [apply Hadm; simpl; fold M; lia |].
    rewrite Hreq. simpl. rewrite filter_all.
    + apply bool_decide_eq_true_2. rewrite HM, length_app. simpl. fold M. lia.
    + apply Forall_forall. intros t Ht. rewrite HW. apply Hspan; [done |].
      apply elem_of_app. right. left.
  - intros Hnil HM1 Hold.
    assert (filter (λ t, now - t ≤ window_size (calls self ip times).2)
              (requests (calls self ip times).2 !!! ip) = []) as ->.
    { apply filter_none, Forall_forall. intros t Ht. rewrite HW.
      apply calls_elems in Ht as [Ht|Ht].
      - rewrite Hnil in Ht. by apply elem_of_nil in Ht.
      - specialize (Hold t Ht). fold W. lia. }
    simpl. rewrite lookup_total_insert_eq. split; [|done].
    apply bool_decide_eq_false_2. rewrite HM. fold M. lia.
Qed.

Lemma rate_limiter_sliding_window_witness :
  let self := {| window_size := 60; max_requests := 2; requests := ∅ |} in
  (Forall (λ limited, limited = false) (calls self "203.0.113.7" [0; 10]).1 ∧
   (is_rate_limited (calls self "203.0.113.7" [0; 10]).2 "203.0.113.7" 30).1
   = true) ∧
  ((is_rate_limited (calls self "203.0.113.7" [0; 10]).2 "203.0.113.7" 71).1
   = false ∧
   requests
     (is_rate_limited (calls self "203.0.113.7" [0; 10]).2 "203.0.113.7" 71).2
     !!! "203.0.113.7" = [71]).
Proof.
  intros self. split.
  - destruct (rate_limiter_sliding_window self "203.0.113.7" 30 [0; 10])
      as (_ & _ & _ & H & _).
    apply H; [reflexivity | reflexivity |].
    intros t t' Ht Ht'. set_unfold. simpl. lia.
  - destruct (rate_limiter_sliding_window self "203.0.113.7" 71 [0; 10])
      as (_ & _ & _ & _ & H).
    apply H; [reflexivity | simpl; lia |].
    intros t Ht. set_unfold. simpl. lia.
Defined.

(** ** The aggregator *)

(** C6, as stated, fails when the MOT-test call fails before it has a
    status to report: the token exchange is answered 401 and
    [raise_for_status] raises, or the MOT API gives no response; the
    exception leaves [get_vehicle_data] although the VES call
    succeeded. *)
Lemma aggregation_fails_without_mot_response :
  let refused := {| ves_api := λ _, Reply 200 fresh_AB12CDE;
                    token_api := Reply 401 None;
                    mot_api := λ _ _, Reply 200 empty_doc |} in
  let silent := {| ves_api := λ _, Reply 200 fresh_AB12CDE;
                   token_api := Reply 200 (Some "token");
                   mot_api := λ _ _, NoReply |} in
  get_vehicle_data refused "AB12CDE" = Raise (HTTPError 401) ∧
  get_vehicle_data silent "AB12CDE" = Raise ConnectionError.
Proof. split; reflexivity. Qed.

(** C6, amended: for every registration whose VES call succeeds and
    whose token exchange succeeds, an MOT-test call answered with a
    status other than 200 does not fail the aggregation: fetch returns
    the VES document with a motTests list (empty unless the VES
    document had one); answered 200, fetch returns the two documents
    combined, the MOT fields first.  Whenever fetch returns, the
    document contains a motTests key.  A failed token exchange raises
    out of fetch. *)
Theorem fetch_tolerates_mot_status up reg ves_data :
  ves_api up reg = Reply 200 ves_data →
  (∀ token status mot_json,
     get_mot_access_token up = Ok token →
     mot_api up token reg = Reply status mot_json →
     ∃ combined,
       get_vehicle_data up reg = Ok combined ∧
       is_Some (motTests combined) ∧
       (status ≠ 200 →
        fields combined = fields ves_data ∧
        motTests combined = Some (default [] (motTests ves_data))) ∧
       (status = 200 →
        fields combined = fields mot_json ∪ fields ves_data ∧
        motTests combined
        = Some (default (default [] (motTests ves_data)) (motTests mot_json)))) ∧
  (∀ combined, get_vehicle_data up reg = Ok combined →
               is_Some (motTests combined)) ∧
  (∀ e, get_mot_access_token up = Raise e → get_vehicle_data up reg = Raise e).
Proof.
  intros Hves. unfold get_vehicle_data. rewrite Hves. simpl. split_and!.
  - intros token status mot_json -> Hmot. csimpl. rewrite Hmot.
    eexists. split; [done |].
    destruct (decide (status = 200)) as [->|Hne].
    + simpl. unfold combine.
      destruct (motTests mot_json) as [tests|] eqn:Em; simpl.
      * split_and!; [by eexists | done | done].
      * destruct (motTests ves_data); simpl;
          (split_and!; [by eexists | done | done]).
    + rewrite bool_decide_eq_true_2 by done. unfold combine. simpl.
      rewrite (left_id_L ∅ (∪)).
      destruct (motTests ves_data); simpl;
        (split_and!; [by eexists | done | done]).
  - intros combined.
    destruct (get_mot_access_token up) as [token|e]; csimpl; [|done].
    destruct (mot_api up token reg) as [status mot_json|]; [|done].
    intros [= <-]. case_match eqn:E; simpl; [rewrite E |]; by eexists.
  - by intros e ->.
Qed.

Lemma fetch_tolerates_mot_status_witness :
  let up := {| ves_api := λ _, Reply 200 fresh_AB12CDE;
               token_api := Reply 200 (Some "token");
               mot_api := λ _ _, Reply 503 empty_doc |} in
  ∃ combined,
    get_vehicle_data up "AB12CDE" = Ok combined ∧
    is_Some (motTests combined) ∧
    (503 ≠ 200 →
     fields combined = fields fresh_AB12CDE ∧
     motTests combined = Some (default [] (motTests fresh_AB12CDE))) ∧
    (503 = 200 →
     fields combined = fields empty_doc ∪ fields fresh_AB12CDE ∧
     motTests combined
     = Some (default (default [] (motTests fresh_AB12CDE)) (motTests empty_doc))).
Proof.
  intros up.
  destruct (fetch_tolerates_mot_status up "AB12CDE" fresh_AB12CDE eq_refl)
    as [H _].
  apply (H "token" 503 empty_doc); reflexivity.
Defined.

(** ** The route *)

#[local] Arguments log_request : simpl never.
#[local] Arguments get_cached_vehicle_data : simpl never.
#[local] Arguments cache_vehicle_data : simpl never.
#[local] Arguments get_request_count : simpl never.
#[local] Arguments check_cache_exists : simpl never.
#[local] Arguments fetch : simpl never.
#[local] Arguments get_vehicle_data : simpl never.

Lemma check_cache_exists_eq reg s :
  check_cache_exists reg s
  = (Ok (bool_decide
           (is_Some (list_find (λ v, registration_number v = reg)
                       (vehicle_cache (pending s))))), s).
Proof. done. Qed.

Lemma get_request_count_eq reg s :
  get_request_count reg s
  = (Ok (default 0 (request_count <$> find_row reg (pending s))), s).
Proof.
  unfold get_request_count, find_row, mbind, M_bind, query_first. simpl.
  by destruct (list_find _ _) as [[i v]|].
Qed.

(** A successful write of the log: one entry more, the counter of the
    row of the registration bumped if there is one, all committed. *)
Lemma log_request_eq now reg rd qt c s :
  let entry := {| log_registration_number := reg; log_request_data := rd;
                  query_time := qt; is_cached := c; requested_at := now |} in
  let rows := vehicle_cache (pending s) in
  let t := {| vehicle_cache :=
                match list_find (λ v, registration_number v = reg) rows with
                | Some (i, v) => <[i := touch v now]> rows
                | None => rows
                end;
              request_logs := request_logs (pending s) ++ [entry] |} in
  log_request false now reg rd qt c s
  = (Ok (), {| pending := t; committed := t; fetched := fetched s |}).
Proof.
  unfold log_request, increment_request_count, mbind, M_bind, query_first,
    add_log, commit, set_row. simpl.
  by destruct (list_find _ _) as [[i v]|].
Qed.

Lemma get_cached_keeps_logs now reg s :
  request_logs (pending (get_cached_vehicle_data now reg s).2)
  = request_logs (pending s).
Proof.
  unfold get_cached_vehicle_data, mbind, M_bind, query_first. simpl.
  destruct (list_find _ _) as [[i v]|]; [|done]. simpl.
  case_bool_decide; [done |]. simpl. by destruct (mot_data v).
Qed.

Lemma cache_keeps_logs now reg data s :
  request_logs (pending (cache_vehicle_data now reg data s).2)
  = request_logs (pending s).
Proof.
  unfold cache_vehicle_data, mbind, M_bind, query_first. simpl.
  destruct (list_find _ _) as [[i v]|]; [|done]. simpl.
  by destruct (merge_mot_data _ _).
Qed.

(** What the route answers after the write of the log. *)
Lemma serve_logs_once env reg rd s :
  log_write_fails env = false →
  ∃ response entry s',
    serve env reg rd s = (Ok response, s') ∧
    pending s' = committed s' ∧
    request_logs (committed s') = request_logs (pending s) ++ [entry] ∧
    log_registration_number entry = reg ∧ log_request_data entry = rd.
Proof.
  intros Hlog. unfold serve, try_except. rewrite Hlog.
  unfold mbind, M_bind. rewrite check_cache_exists_eq.
  set (is_cached := bool_decide _).
  set (cached := if is_cached then _ else _).
  assert (request_logs (pending (cached s).2) = request_logs (pending s)) as Hc.
  { subst cached. destruct is_cached; [apply get_cached_keeps_logs | done]. }
  destruct (cached s) as [[[cached_data|]|e] s1]; simpl in Hc.
  - rewrite log_request_eq, get_request_count_eq. simpl.
    do 3 eexists. split; [done |]. simpl. rewrite Hc. done.
  - unfold fetch. simpl.
    destruct (get_vehicle_data _ _) as [fresh|e].
    + pose proof (cache_keeps_logs (utcnow env) reg fresh
                    {| pending := pending s1; committed := committed s1;
                       fetched := fetched s1 ++ [reg] |}) as Hk.
      destruct (cache_vehicle_data _ _ _ _) as [[[]|e] s2]; simpl in Hk.
      * rewrite log_request_eq, get_request_count_eq. simpl.
        do 3 eexists. split; [done |]. simpl. rewrite Hk, Hc. done.
      * destruct e; rewrite log_request_eq; simpl;
          (do 3 eexists; split; [done |]; simpl; rewrite Hk, Hc; done).
    + destruct e; rewrite log_request_eq; simpl;
        (do 3 eexists; split; [done |]; simpl; rewrite Hc; done).
  - destruct e; rewrite log_request_eq; simpl;
      (do 3 eexists; split; [done |]; simpl; rewrite Hc; done).
Qed.

Lemma post_vehicle_limited env request app :
  (is_rate_limited (limiter app) (client_ip request) (time env)).1 = true →
  post_vehicle env request app
  = (Ok {| status := 429;
           payload := LimitExceeded (max_requests (limiter app))
                        (pretty (window_size (limiter app)) +:+ " seconds") |},
     {| limiter := (is_rate_limited (limiter app) (client_ip request)
                      (time env)).2;
        database := database app;
        aggregator_calls := aggregator_calls app |}).
Proof.
  unfold post_vehicle, rate_limit. rewrite is_rate_limited_eq. simpl.
  by intros ->.
Qed.

Lemma post_vehicle_admitted env request app :
  (is_rate_limited (limiter app) (client_ip request) (time env)).1 = false →
  post_vehicle env request app
  = vehicle env request
      {| limiter := (is_rate_limited (limiter app) (client_ip request)
                       (time env)).2;
         database := database app;
         aggregator_calls := aggregator_calls app |}.
Proof.
  unfold post_vehicle, rate_limit. rewrite is_rate_limited_eq. simpl.
  by intros ->.
Qed.

(** C9, as stated, fails twice.  A rate-limited rejection writes no
    RequestLogEntry: the eleventh call of a client within the window
    is answered 429 and the log stays empty.  And a failure of the
    write of the log masks the response: the same request that is
    answered 200 when the log can be written ends in the storage
    exception when it cannot. *)
Lemma rejection_not_logged_and_log_failure_masks :
  let busy :=
    {| limiter := (calls rate_limiter "203.0.113.7"
                     [0; 1; 2; 3; 4; 5; 6; 7; 8; 9]).2;
       database := tables_of [];
       aggregator_calls := [] |} in
  let rejected :=
    post_vehicle (env_at 10 (upstream_with [test_2023])) request_AB12CDE busy in
  let failing :=
    {| time := 0; utcnow := 0; elapsed := 0;
       upstream := upstream_with [test_2023]; log_write_fails := true |} in
  (∃ p, rejected.1 = Ok {| status := 429; payload := p |}) ∧
  request_logs (database rejected.2) = [] ∧
  (∃ p, (post_vehicle (env_at 0 (upstream_with [test_2023]))
           request_AB12CDE app_empty).1
        = Ok {| status := 200; payload := p |}) ∧
  (post_vehicle failing request_AB12CDE app_empty).1 = Raise StorageError.
Proof.
  split_and!; [eexists; by vm_compute | by vm_compute
              | eexists; by vm_compute | by vm_compute].
Qed.

(** C9, amended: when the log can be written, every request that the
    rate limiter admits and that names a registration ends in a
    response, whatever the outcome (success from the cache or from the
    aggregator, upstream failure, unexpected error), and appends
    exactly one RequestLogEntry, for that registration and that client.
    A rate-limited rejection is answered 429 and a request with an
    empty registration 400, both without a RequestLogEntry and without
    any change to the database. *)
Theorem one_log_entry_per_handled_request env request app :
  log_write_fails env = false →
  let r := post_vehicle env request app in
  let limited :=
    (is_rate_limited (limiter app) (client_ip request) (time env)).1 in
  (limited = true →
   (∃ p, r.1 = Ok {| status := 429; payload := p |}) ∧
   database r.2 = database app) ∧
  (limited = false →
   ∀ raw, json_reg request = Some raw →
     (remove_spaces raw = "" →
      r.1 = Ok {| status := 400;
                  payload := Error "Registration number is required" |} ∧
      database r.2 = database app) ∧
     (remove_spaces raw ≠ "" →
      ∃ response entry,
        r.1 = Ok response ∧
        request_logs (database r.2) = request_logs (database app) ++ [entry] ∧
        log_registration_number entry = remove_spaces raw ∧
        log_request_data entry = request_data_of request)).
Proof.
  intros Hlog r limited. subst r limited. split.
  - intros Hl. rewrite post_vehicle_limited by done. simpl.
    split; [by eexists | done].
  - intros Hl raw Hraw. rewrite post_vehicle_admitted by done.
    unfold vehicle. rewrite Hraw. split; intros Hreg.
    + by rewrite bool_decide_eq_true_2.
    + rewrite bool_decide_eq_false_2 by done. simpl.
      destruct (serve_logs_once env (remove_spaces raw)
                  (request_data_of request)
                  {| pending := database app; committed := database app;
                     fetched := aggregator_calls app |} Hlog)
        as (response & entry & s' & -> & _ & Hlogs & He1 & He2).
      by exists response, entry.
Qed.

Lemma one_log_entry_per_handled_request_witness :
  let r := post_vehicle (env_at 0 upstream_not_found) request_AB12CDE app_empty in
  ∃ response entry,
    r.1 = Ok response ∧
    request_logs (database r.2) = request_logs (database app_empty) ++ [entry] ∧
    log_registration_number entry = remove_spaces "AB12 CDE" ∧
    log_request_data entry = request_data_of request_AB12CDE.
Proof.
  intros r.
  destruct (one_log_entry_per_handled_request
              (env_at 0 upstream_not_found) request_AB12CDE app_empty eq_refl)
    as [_ H].
  destruct (H eq_refl "AB12 CDE" eq_refl) as [_ H'].
  apply H'. by vm_compute.
Defined.

Lemma get_vehicle_data_not_found up reg body :
  ves_api up reg = Reply 404 body →
  get_vehicle_data up reg = Raise (VehicleAPIError "Vehicle not found" 404).
Proof. unfold get_vehicle_data. by intros ->. Qed.

(** A request that goes to the aggregator and is told that the vehicle
    is not known: the session after the answer. *)
Lemma serve_not_found env reg rd s body :
  log_write_fails env = false →
  ves_api (upstream env) reg = Reply 404 body →
  (∀ v, find_row reg (pending s) = Some v →
        1 ≤ days (utcnow env - last_updated v)) →
  let rows := vehicle_cache (pending s) in
  let found := list_find (λ v, registration_number v = reg) rows in
  let t :=
    {| vehicle_cache :=
         match found with
         | Some (i, v) => <[i := touch v (utcnow env)]> rows
         | None => rows
         end;
       request_logs :=
         request_logs (pending s)
         ++ [{| log_registration_number := reg; log_request_data := rd;
                query_time := elapsed env;
                is_cached := bool_decide (is_Some found);
                requested_at := utcnow env |}] |} in
  serve env reg rd s
  = (Ok {| status := 404; payload := Error "Vehicle not found" |},
     {| pending := t; committed := t; fetched := fetched s ++ [reg] |}).
Proof.
  intros Hlog Hves Hstale. unfold serve, try_except. rewrite Hlog.
  unfold mbind, M_bind. rewrite check_cache_exists_eq.
  unfold find_row in Hstale.
  assert ((if bool_decide
                (is_Some (list_find (λ v, registration_number v = reg)
                            (vehicle_cache (pending s))))
           then get_cached_vehicle_data (utcnow env) reg
           else mret None) s = (Ok None, s)) as ->.
  { destruct (list_find _ _) as [[i v]|] eqn:Hf; [|done].
    rewrite bool_decide_eq_true_2 by by eexists.
    unfold get_cached_vehicle_data, mbind, M_bind, query_first.
    rewrite Hf. simpl. by rewrite bool_decide_eq_true_2 by by apply Hstale. }
  unfold fetch. rewrite (get_vehicle_data_not_found _ _ _ Hves).
  by rewrite log_request_eq.
Qed.

(** C8, as stated, fails when the registration has a stale record: the
    request is answered 404, and the write of its log increments the
    requestCount of the record and sets its lastRequested. *)
Lemma not_found_bumps_stale_record :
  let app := {| limiter := rate_limiter;
                database := tables_of [row_AB12CDE (Some [test_2023]) 0 1];
                aggregator_calls := [] |} in
  let r := post_vehicle (env_at (25 * 3600) upstream_not_found)
             request_AB12CDE app in
  r.1 = Ok {| status := 404; payload := Error "Vehicle not found" |} ∧
  request_count <$> find_row "AB12CDE" (database app) = Some 1 ∧
  request_count <$> find_row "AB12CDE" (database r.2) = Some 2 ∧
  last_requested <$> find_row "AB12CDE" (database r.2)
  = Some (25 * 3600 * 1000000).
Proof. by vm_compute. Qed.

(** C8, amended: for every non-empty registration, in a request that
    the rate limiter admits and whose log can be written, if the
    request reaches the aggregator (no record, or a stale one) and the
    registration lookup reports not-found, the pipeline returns status
    404 and no upsert occurs: without a record the cached vehicle
    records are unchanged; a stale record keeps every cached field, its
    MOT history and its lastUpdated, and the write of the request log
    increments its requestCount by one and sets its lastRequested. *)
Theorem not_found_no_upsert env request app raw body :
  json_reg request = Some raw →
  remove_spaces raw ≠ "" →
  log_write_fails env = false →
  (is_rate_limited (limiter app) (client_ip request) (time env)).1 = false →
  ves_api (upstream env) (remove_spaces raw) = Reply 404 body →
  (∀ v, find_row (remove_spaces raw) (database app) = Some v →
        1 ≤ days (utcnow env - last_updated v)) →
  let reg := remove_spaces raw in
  let r := post_vehicle env request app in
  let rows := vehicle_cache (database app) in
  r.1 = Ok {| status := 404; payload := Error "Vehicle not found" |} ∧
  aggregator_calls r.2 = aggregator_calls app ++ [reg] ∧
  (find_row reg (database app) = None → vehicle_cache (database r.2) = rows) ∧
  (∀ i v, list_find (λ v, registration_number v = reg) rows = Some (i, v) →
          vehicle_cache (database r.2) = <[i := touch v (utcnow env)]> rows ∧
          find_row reg (database r.2) = Some (touch v (utcnow env)) ∧
          request_count (touch v (utcnow env)) = request_count v + 1 ∧
          last_requested (touch v (utcnow env)) = utcnow env ∧
          last_updated (touch v (utcnow env)) = last_updated v ∧
          mot_data (touch v (utcnow env)) = mot_data v ∧
          Forall (λ kc : string * (VehicleCache → value),
                    kc.2 (touch v (utcnow env)) = kc.2 v) scalar_columns).
Proof.
  intros Hraw Hreg Hlog Hadm Hves Hstale reg r rows. subst r.
  rewrite post_vehicle_admitted by done. unfold vehicle. rewrite Hraw.
  rewrite bool_decide_eq_false_2 by done. cbn [database aggregator_calls limiter].
  rewrite (serve_not_found env reg _ _ body); [|done..].
  cbn [fst snd database aggregator_calls committed pending fetched vehicle_cache].
  split_and!; [done | done | |].
  - unfold find_row. fold rows. by destruct (list_find _ rows).
  - fold rows. intros i v Hf. rewrite Hf. split_and!; try done.
    + unfold find_row. cbn [vehicle_cache].
      by rewrite (list_find_set_found _ _ v).
    + unfold scalar_columns. repeat constructor.
Qed.

Lemma not_found_no_upsert_witness :
  let app := {| limiter := rate_limiter;
                database := tables_of [row_AB12CDE (Some [test_2023]) 0 1];
                aggregator_calls := [] |} in
  let env := env_at (25 * 3600) upstream_not_found in
  let r := post_vehicle env request_AB12CDE app in
  r.1 = Ok {| status := 404; payload := Error "Vehicle not found" |} ∧
  aggregator_calls r.2 = ["AB12CDE"].
Proof.
  intros app env r.
  destruct (not_found_no_upsert env request_AB12CDE app "AB12 CDE" empty_doc)
    as (H1 & H2 & _); try reflexivity.
  - by vm_compute.
  - intros v [= <-]. by vm_compute.
  - split; [exact H1 | exact H2].
Defined.

Lemma get_cached_stale now reg s i v :
  list_find (λ v, registration_number v = reg) (vehicle_cache (pending s))
  = Some (i, v) →
  1 ≤ days (now - last_updated v) →
  get_cached_vehicle_data now reg s = (Ok None, s).
Proof.
  intros Hf Hd. unfold get_cached_vehicle_data, mbind, M_bind, query_first.
  rewrite Hf. simpl. by rewrite bool_decide_eq_true_2.
Qed.

Lemma get_cached_fresh now reg s i v tests :
  list_find (λ v, registration_number v = reg) (vehicle_cache (pending s))
  = Some (i, v) →
  days (now - last_updated v) < 1 →
  mot_data v = Some tests →
  let t := {| vehicle_cache := <[i := touch v now]> (vehicle_cache (pending s));
              request_logs := request_logs (pending s) |} in
  get_cached_vehicle_data now reg s
  = (Ok (Some {| fields := columns (touch v now); motTests := Some tests |}),
     {| pending := t; committed := t; fetched := fetched s |}).
Proof.
  intros Hf Hd Ht. unfold get_cached_vehicle_data, mbind, M_bind, query_first.
  rewrite Hf. simpl. rewrite bool_decide_eq_false_2 by lia. simpl.
  by rewrite Ht.
Qed.

(** Every request that is served is counted twice: once by the store
    operation that serves it (the creation with a count of 1, the
    refresh or the fresh hit) and once by the write of its log. *)
Lemma served_request_counted_twice env request app raw :
  json_reg request = Some raw →
  remove_spaces raw ≠ "" →
  log_write_fails env = false →
  (is_rate_limited (limiter app) (client_ip request) (time env)).1 = false →
  let reg := remove_spaces raw in
  let r := post_vehicle env request app in
  let count t := request_count <$> find_row reg t in
  (∀ fresh,
     find_row reg (database app) = None →
     get_vehicle_data (upstream env) reg = Ok fresh →
     count (database r.2) = Some 2 ∧
     response_count r.1 = Some (VInt 2) ∧
     aggregator_calls r.2 = aggregator_calls app ++ [reg]) ∧
  (∀ v tests,
     find_row reg (database app) = Some v →
     days (utcnow env - last_updated v) < 1 →
     mot_data v = Some tests →
     count (database r.2) = Some (request_count v + 2) ∧
     response_count r.1 = Some (VInt (request_count v + 2)) ∧
     aggregator_calls r.2 = aggregator_calls app) ∧
  (∀ v fresh merged,
     find_row reg (database app) = Some v →
     1 ≤ days (utcnow env - last_updated v) →
     get_vehicle_data (upstream env) reg = Ok fresh →
     merge_mot_data (default [] (mot_data v)) (default [] (motTests fresh))
     = Ok merged →
     count (database r.2) = Some (request_count v + 2) ∧
     response_count r.1 = Some (VInt (request_count v + 2)) ∧
     (find_row reg (database r.2) ≫= mot_data) = Some merged ∧
     aggregator_calls r.2 = aggregator_calls app ++ [reg]).
Proof.
  intros Hraw Hreg Hlog Hadm reg r count. subst r count.
  rewrite post_vehicle_admitted by done. unfold vehicle. rewrite Hraw.
  rewrite bool_decide_eq_false_2 by done. cbn [database aggregator_calls limiter].
  unfold serve, try_except. rewrite Hlog. unfold mbind, M_bind.
  rewrite check_cache_exists_eq. unfold find_row. cbn [pending].
  fold reg. split_and!.
  - intros fresh Hnone Hfetch.
    destruct (list_find _ (vehicle_cache (database app))) as [|] eqn:Hf; [done |].
    rewrite bool_decide_eq_false_2 by by intros [? [=]].
    unfold fetch. rewrite Hfetch. cbn [mret M_ret].
    rewrite cache_new by done. cbn [pending vehicle_cache request_logs fetched].
    rewrite log_request_eq. cbn [pending vehicle_cache request_logs fetched].
    set (v1 := new_vehicle reg fresh (utcnow env)).
    pose proof (list_find_add _ v1 reg Hf eq_refl) as Hf1. rewrite Hf1.
    pose proof (list_find_set_found _ _ v1 (touch v1 (utcnow env)) reg Hf1
                  eq_refl) as Hf2.
    rewrite get_request_count_eq. unfold find_row.
    cbn [mret M_ret pending vehicle_cache fst snd committed database
         aggregator_calls fetched].
    rewrite !Hf2. simpl. split_and!; [done | | done].
    by rewrite lookup_insert_eq.
  - intros v tests Hv Hd Ht.
    destruct (list_find _ (vehicle_cache (database app))) as [[i v']|] eqn:Hf;
      [|done]. simpl in Hv. injection Hv as ->.
    rewrite bool_decide_eq_true_2 by by eexists.
    rewrite (get_cached_fresh _ _ _ i v tests); [|done..].
    cbn [pending vehicle_cache request_logs fetched].
    pose proof (list_find_set_found _ _ v (touch v (utcnow env)) reg Hf eq_refl)
      as Hf1.
    rewrite log_request_eq. cbn [pending vehicle_cache request_logs fetched].
    rewrite Hf1.
    pose proof (list_find_set_found _ _ (touch v (utcnow env))
                  (touch (touch v (utcnow env)) (utcnow env)) reg Hf1 eq_refl)
      as Hf2.
    rewrite get_request_count_eq. unfold find_row.
    cbn [mret M_ret pending vehicle_cache fst snd committed database
         aggregator_calls fetched].
    rewrite !Hf2. simpl. split_and!; [f_equal; lia | | done].
    rewrite lookup_insert_eq. do 2 f_equal. lia.
  - intros v fresh merged Hv Hd Hfetch Hmerge.
    destruct (list_find _ (vehicle_cache (database app))) as [[i v']|] eqn:Hf;
      [|done]. simpl in Hv. injection Hv as ->.
    rewrite bool_decide_eq_true_2 by by eexists.
    rewrite (get_cached_stale _ _ _ i v); [|done..].
    unfold fetch. rewrite Hfetch.
    rewrite (cache_existing _ _ _ _ i v merged); [|done..].
    cbn [pending vehicle_cache request_logs fetched].
    set (v1 := refresh (overwrite_scalars v fresh) merged (utcnow env)).
    pose proof (list_find_set_found _ _ v v1 reg Hf eq_refl) as Hf1.
    rewrite log_request_eq. cbn [pending vehicle_cache request_logs fetched].
    rewrite Hf1.
    pose proof (list_find_set_found _ _ v1 (touch v1 (utcnow env)) reg Hf1
                  eq_refl) as Hf2.
    rewrite get_request_count_eq. unfold find_row.
    cbn [mret M_ret pending vehicle_cache fst snd committed database
         aggregator_calls fetched].
    rewrite !Hf2. simpl. split_and!; [f_equal; lia | | done | done].
    rewrite lookup_insert_eq. do 2 f_equal. lia.
Qed.

(** C1 on the code: the scenario of the registration AB12CDE.  The
    first request calls the aggregator once, the second, an hour later,
    does not, the third, after 25 hours, calls it again and the MOT
    history is merged by date.  Each of the three requests bumps the
    counter twice, once in the store operation that serves it and once
    in the write of its log: requestCount is 2, 4 and 6, in the record
    and in the responses. *)
Theorem scenario_counts_each_request_twice :
  let first := upstream_with [test_2023] in
  let later := upstream_with [test_2024; test_2023_failed] in
  let r1 := post_vehicle (env_at 0 first) request_AB12CDE app_empty in
  let r2 := post_vehicle (env_at 3600 first) request_AB12CDE r1.2 in
  let r3 := post_vehicle (env_at (25 * 3600) later) request_AB12CDE r2.2 in
  let count r := request_count <$> find_row "AB12CDE" (database r) in
  (aggregator_calls r1.2 = ["AB12CDE"] ∧
   count r1.2 = Some 2 ∧ response_count r1.1 = Some (VInt 2)) ∧
  (aggregator_calls r2.2 = ["AB12CDE"] ∧
   count r2.2 = Some 4 ∧ response_count r2.1 = Some (VInt 4)) ∧
  (aggregator_calls r3.2 = ["AB12CDE"; "AB12CDE"] ∧
   count r3.2 = Some 6 ∧ response_count r3.1 = Some (VInt 6) ∧
   (find_row "AB12CDE" (database r3.2) ≫= mot_data)
   = Some [test_2024; test_2023_failed]).
Proof. by vm_compute. Qed.

(** * Further properties *)

(** ** The rate limiter over a history of calls *)

Lemma calls_app self ip l1 l2 :
  calls self ip (l1 ++ l2)
  = ((calls self ip l1).1 ++ (calls (calls self ip l1).2 ip l2).1,
     (calls (calls self ip l1).2 ip l2).2).
Proof.
  revert self. induction l1 as [|t l1 IH]; intros self.
  - simpl. by destruct (calls self ip l2).
  - rewrite <- app_comm_cons, !calls_cons, IH. done.
Qed.

(** With a clock that never goes back, the list of a client holds the
    calls of the last window, whatever their verdicts were. *)
Lemma calls_history self ip times :
  0 ≤ window_size self →
  requests self !!! ip = [] →
  Sorted Z.le times →
  requests (calls self ip times).2 !!! ip
  = match last times with
    | Some now => filter (λ t, now - t ≤ window_size self) times
    | None => []
    end.
Proof.
  intros HW Hnil. induction times as [|now pre IH] using rev_ind; intros Hs.
  - done.
  - apply (Sorted_StronglySorted _) in Hs.
    apply StronglySorted_app in Hs as (Hle & Hpre & _).
    rewrite calls_app, last_snoc. cbn [snd]. rewrite calls_cons. cbn [snd calls].
    rewrite is_rate_limited_eq. cbn [snd requests].
    rewrite lookup_total_insert_eq.
    destruct (calls_config self ip pre) as [-> _].
    rewrite IH by by apply StronglySorted_Sorted.
    rewrite filter_app. f_equal.
    + destruct (last pre) as [t0|] eqn:Hlast.
      * rewrite list_filter_filter. apply list_filter_iff. intros t.
        split; [by intros [? _] |]. intros Ht. split; [done |].
        assert (t0 ≤ now); [|lia].
        apply Hle; [by apply last_Some_elem_of | left].
      * apply last_None in Hlast as ->. done.
    + rewrite filter_cons, decide_True by lia. done.
Qed.

(** X1: with a clock that never goes back and a client without
    history, the call made at [now] after the calls [pre] is rejected
    exactly when more than M calls of the client, admitted or rejected
    and this one included, fall within the window W before [now]; and
    these calls are what the limiter keeps for the client. *)
Theorem limiter_counts_calls_in_window self ip pre now :
  0 ≤ window_size self →
  requests self !!! ip = [] →
  Sorted Z.le (pre ++ [now]) →
  let recent := filter (λ t, now - t ≤ window_size self) (pre ++ [now]) in
  requests (calls self ip (pre ++ [now])).2 !!! ip = recent ∧
  last (calls self ip (pre ++ [now])).1
  = Some (bool_decide (Z.of_nat (length recent) > max_requests self)).
Proof.
  intros HW Hnil Hs recent. split.
  - rewrite calls_history by done. by rewrite last_snoc.
  - pose proof Hs as Hs'. apply (Sorted_StronglySorted _) in Hs'.
    apply StronglySorted_app in Hs' as (Hle & Hpre & _).
    rewrite calls_app. cbn [fst]. rewrite calls_cons. cbn [fst calls].
    rewrite last_snoc, is_rate_limited_eq. cbn [fst].
    destruct (calls_config self ip pre) as [-> ->].
    do 3 f_equal. subst recent.
    pose proof (calls_history self ip (pre ++ [now]) HW Hnil Hs) as Hh.
    rewrite last_snoc, calls_app in Hh. cbn [snd] in Hh.
    rewrite calls_cons in Hh. cbn [snd calls] in Hh.
    rewrite is_rate_limited_eq in Hh. cbn [snd requests] in Hh.
    rewrite lookup_total_insert_eq in Hh.
    destruct (calls_config self ip pre) as [HWp _]. rewrite HWp in Hh.
    by rewrite Hh.
Qed.

Lemma limiter_counts_calls_in_window_witness :
  let self := {| window_size := 60; max_requests := 2; requests := ∅ |} in
  let recent := filter (λ t, 70 - t ≤ 60) ([0; 10; 20] ++ [70]) in
  requests (calls self "203.0.113.7" ([0; 10; 20] ++ [70])).2 !!! "203.0.113.7"
  = recent ∧
  last (calls self "203.0.113.7" ([0; 10; 20] ++ [70])).1
  = Some (bool_decide (Z.of_nat (length recent) > 2)).
Proof.
  apply (limiter_counts_calls_in_window
           {| window_size := 60; max_requests := 2; requests := ∅ |}
           "203.0.113.7" [0; 10; 20] 70);
    [simpl; lia | reflexivity |].
  repeat constructor; lia.
Defined.

Lemma calls_verdicts_ext self1 self2 ip times :
  window_size self1 = window_size self2 →
  max_requests self1 = max_requests self2 →
  requests self1 !!! ip = requests self2 !!! ip →
  (calls self1 ip times).1 = (calls self2 ip times).1.
Proof.
  revert self1 self2.
  induction times as [|t times IH]; intros self1 self2 HW HM Hr; [done |].
  rewrite !calls_cons, !is_rate_limited_eq. cbn [fst snd].
  rewrite HW, HM, Hr. f_equal. apply IH; simpl; [done.. |].
  by rewrite !lookup_total_insert_eq.
Qed.

Lemma calls_other self ip ip' times :
  ip' ≠ ip → requests (calls self ip times).2 !! ip' = requests self !! ip'.
Proof.
  intros Hne. revert self. induction times as [|t times IH]; intros self;
    [done |].
  rewrite calls_cons, is_rate_limited_eq. cbn [snd]. rewrite IH. simpl.
  by rewrite lookup_insert_ne.
Qed.

(** X2: clients are limited independently: the verdicts that a client
    gets for its calls are the same whatever calls another client made
    before. *)
Theorem limiter_clients_independent self ip ip' times times' :
  ip' ≠ ip →
  (calls (calls self ip times).2 ip' times').1 = (calls self ip' times').1.
Proof.
  intros Hne. destruct (calls_config self ip times) as [HW HM].
  apply calls_verdicts_ext; [done.. |].
  by rewrite !lookup_total_alt, calls_other.
Qed.

Lemma limiter_clients_independent_witness :
  (calls (calls rate_limiter "203.0.113.7" [0; 1; 2]).2 "198.51.100.9" [3; 4]).1
  = (calls rate_limiter "198.51.100.9" [3; 4]).1.
Proof.
  apply (limiter_clients_independent rate_limiter "203.0.113.7"
           "198.51.100.9" [0; 1; 2] [3; 4]).
  by vm_compute.
Defined.

(** ** The store: round trips and what an access leaves alone *)

Lemma get_cached_absent_iff now reg s i v :
  list_find (λ v, registration_number v = reg) (vehicle_cache (pending s))
  = Some (i, v) →
  (get_cached_vehicle_data now reg s).1 = Ok None
  ↔ 1 ≤ days (now - last_updated v).
Proof.
  intros Hf. unfold get_cached_vehicle_data, mbind, M_bind, query_first.
  rewrite Hf. simpl. case_bool_decide; [done |]. simpl.
  by destruct (mot_data v).
Qed.

Lemma get_cached_hit_state now reg s i v :
  list_find (λ v, registration_number v = reg) (vehicle_cache (pending s))
  = Some (i, v) →
  days (now - last_updated v) < 1 →
  let t := {| vehicle_cache := <[i := touch v now]> (vehicle_cache (pending s));
              request_logs := request_logs (pending s) |} in
  (get_cached_vehicle_data now reg s).2
  = {| pending := t; committed := t; fetched := fetched s |}.
Proof.
  intros Hf Hd. unfold get_cached_vehicle_data, mbind, M_bind, query_first.
  rewrite Hf. simpl. rewrite bool_decide_eq_false_2 by lia. simpl.
  by destruct (mot_data v).
Qed.

(** X3: what upsert stores for a registration without a record, [get]
    returns as long as less than one whole day has passed: the fresh
    tests as they came, every scalar column with the value the fresh
    document has under its key (null when the key is missing), and a
    requestCount of 2; from one whole day on it returns absent. *)
Theorem upsert_then_get now now' reg data s :
  list_find (λ v, registration_number v = reg) (vehicle_cache (pending s))
  = None →
  let stored := (cache_vehicle_data now reg data s).2 in
  let r := get_cached_vehicle_data now' reg stored in
  (r.1 = Ok None ↔ 1 ≤ days (now' - now)) ∧
  (days (now' - now) < 1 →
   ∃ v, r.1 = Ok (Some {| fields := columns v;
                          motTests := Some (default [] (motTests data)) |}) ∧
        registration_number v = reg ∧
        Forall (λ kc : string * (VehicleCache → value),
                  kc.2 v = get data kc.1) scalar_columns ∧
        request_count v = 2 ∧
        last_updated v = now ∧
        last_requested v = now').
Proof.
  intros Hf stored r. subst stored r. rewrite cache_new by done. cbn [snd].
  set (v1 := new_vehicle reg data now).
  pose proof (list_find_add _ v1 reg Hf eq_refl) as Hf1.
  split.
  - by rewrite (get_cached_absent_iff _ _ _ (length (vehicle_cache (pending s))) v1).
  - intros Hd. exists (touch v1 now').
    rewrite (get_cached_fresh _ _ _ (length (vehicle_cache (pending s))) v1
               (default [] (motTests data)));
      [|done..].
    split_and!; try done. unfold scalar_columns. repeat constructor.
Qed.

Lemma upsert_then_get_witness :
  let s := open_session (tables_of []) [] in
  let stored := (cache_vehicle_data 0 "AB12CDE" fresh_AB12CDE s).2 in
  let r := get_cached_vehicle_data 3600000000 "AB12CDE" stored in
  (r.1 = Ok None ↔ 1 ≤ days (3600000000 - 0)) ∧
  (days (3600000000 - 0) < 1 →
   ∃ v, r.1 = Ok (Some {| fields := columns v;
                          motTests := Some (default [] (motTests fresh_AB12CDE)) |}) ∧
        registration_number v = "AB12CDE" ∧
        Forall (λ kc : string * (VehicleCache → value),
                  kc.2 v = get fresh_AB12CDE kc.1) scalar_columns ∧
        request_count v = 2 ∧
        last_updated v = 0 ∧
        last_requested v = 3600000000).
Proof.
  apply (upsert_then_get 0 3600000000 "AB12CDE" fresh_AB12CDE
           (open_session (tables_of []) [])).
  reflexivity.
Defined.

(** X4: an access does not extend the life of a cached record: after a
    fresh hit, and after the write of a request log, the record is
    absent for [get] from the same moment as before, one whole day
    after its last refresh. *)
Theorem access_keeps_deadline now1 now2 reg rd qt c s i v :
  list_find (λ v, registration_number v = reg) (vehicle_cache (pending s))
  = Some (i, v) →
  days (now1 - last_updated v) < 1 →
  let hit := (get_cached_vehicle_data now1 reg s).2 in
  let logged := (log_request false now1 reg rd qt c hit).2 in
  ((get_cached_vehicle_data now2 reg hit).1 = Ok None
   ↔ 1 ≤ days (now2 - last_updated v)) ∧
  ((get_cached_vehicle_data now2 reg logged).1 = Ok None
   ↔ 1 ≤ days (now2 - last_updated v)).
Proof.
  intros Hf Hd hit logged. subst hit logged.
  rewrite (get_cached_hit_state _ _ _ i v) by done.
  pose proof (list_find_set_found _ _ v (touch v now1) reg Hf eq_refl) as Hf1.
  split.
  - by rewrite (get_cached_absent_iff _ _ _ i (touch v now1)).
  - rewrite log_request_eq. cbn [pending vehicle_cache request_logs snd].
    rewrite Hf1.
    rewrite (get_cached_absent_iff _ _ _ i (touch (touch v now1) now1)); [done |].
    by apply (list_find_set_found _ _ (touch v now1)).
Qed.

Lemma access_keeps_deadline_witness :
  let v := row_AB12CDE (Some [test_2023]) 0 1 in
  let s := open_session (tables_of [v]) [] in
  let rd := request_data_of request_AB12CDE in
  let hit := (get_cached_vehicle_data 1000 "AB12CDE" s).2 in
  let logged := (log_request false 1000 "AB12CDE" rd 0 true hit).2 in
  ((get_cached_vehicle_data 86400000000 "AB12CDE" hit).1 = Ok None
   ↔ 1 ≤ days (86400000000 - last_updated v)) ∧
  ((get_cached_vehicle_data 86400000000 "AB12CDE" logged).1 = Ok None
   ↔ 1 ≤ days (86400000000 - last_updated v)).
Proof.
  apply (access_keeps_deadline 1000 86400000000 "AB12CDE"
           (request_data_of request_AB12CDE) 0 true
           (open_session (tables_of [row_AB12CDE (Some [test_2023]) 0 1]) [])
           0%nat (row_AB12CDE (Some [test_2023]) 0 1));
    [reflexivity | by vm_compute].
Defined.




(** X6: [get_mot_history] never returns a history: it returns the empty
    list for a registration without a record, and for a registration
    that upsert has written it raises [AttributeError], the stored
    JSON being a list. *)
Theorem get_mot_history_never_returns_history reg s :
  (∀ tests, get_mot_history reg s = Returned tests →
            tests = [] ∧ find_row reg (pending s) = None) ∧
  (find_row reg (pending s) = None → get_mot_history reg s = Returned []) ∧
  (∀ now data,
     (cache_vehicle_data now reg data s).1 = Ok () →
     get_mot_history reg (cache_vehicle_data now reg data s).2
     = Raised AttributeError).
Proof.
  unfold get_mot_history at 1 2, find_row. split_and!.
  - intros tests.
    destruct (list_find _ (vehicle_cache (pending s))) as [[i v]|]; simpl.
    + by destruct (mot_data v).
    + by intros [= <-].
  - by destruct (list_find _ (vehicle_cache (pending s))) as [[i v]|].
  - intros now data.
    destruct (list_find (λ v, registration_number v = reg)
                (vehicle_cache (pending s))) as [[i v]|] eqn:Hf.
    + destruct (merge_mot_data (default [] (mot_data v))
                  (default [] (motTests data))) as [merged|e] eqn:Hm.
      * rewrite (cache_existing _ _ _ _ i v merged) by done. intros _.
        unfold get_mot_history. cbn [snd pending vehicle_cache].
        by rewrite (list_find_set_found _ _ v).
      * destruct (cache_raises now reg data s i v e Hf Hm) as [-> _]. done.
    + rewrite cache_new by done. intros _.
      unfold get_mot_history. cbn [snd pending vehicle_cache].
      by rewrite (list_find_add _ (new_vehicle reg data now) reg Hf eq_refl).
Qed.

Lemma get_mot_history_never_returns_history_witness :
  let s := open_session (tables_of []) [] in
  get_mot_history "AB12CDE" s = Returned [] ∧
  get_mot_history "AB12CDE" (cache_vehicle_data 0 "AB12CDE" fresh_AB12CDE s).2
  = Raised AttributeError.
Proof.
  intros s.
  destruct (get_mot_history_never_returns_history "AB12CDE" s)
    as (_ & H2 & H3).
  split; [by apply H2 | by apply H3].
Defined.

(** ** Invariants of the route *)

Section keeps.
Context (P : Session → Prop).

Lemma keeps_ret {A} (a : A) : keeps P (mret a).
Proof. by intros s. Qed.

Lemma keeps_raise {A} e : keeps P (@raise A e).
Proof. by intros s. Qed.

Lemma keeps_bind {A B} (m : M A) (k : A → M B) :
  keeps P m → (∀ a, keeps P (k a)) → keeps P (m ≫= k).
Proof.
  intros Hm Hk s Hs. unfold mbind, M_bind. specialize (Hm s Hs).
  destruct (m s) as [[a|e] s']; simpl in *; [by apply Hk | done].
Qed.

Lemma keeps_try {A} (body : M A) (handler : exn → M A) :
  keeps P body → (∀ e, keeps P (handler e)) → keeps P (try_except body handler).
Proof.
  intros Hb Hh s Hs. unfold try_except. specialize (Hb s Hs).
  destruct (body s) as [[a|e] s']; simpl in *; [done | by apply Hh].
Qed.

(** A read of the session keeps every property of it. *)
Lemma keeps_check_cache_exists reg : keeps P (check_cache_exists reg).
Proof. by intros s. Qed.

Lemma keeps_get_request_count reg : keeps P (get_request_count reg).
Proof. intros s Hs. by rewrite get_request_count_eq. Qed.

(** The route keeps what its store operations, the call of the
    aggregator and the write of the log keep. *)
Lemma keeps_serve env reg rd :
  (∀ now, keeps P (get_cached_vehicle_data now reg)) →
  (∀ now data, keeps P (cache_vehicle_data now reg data)) →
  (∀ fails now qt c, keeps P (log_request fails now reg rd qt c)) →
  keeps P (fetch (upstream env) reg) →
  keeps P (serve env reg rd).
Proof.
  intros Hget Hcache Hlog Hfetch. unfold serve.
  apply keeps_bind; [apply keeps_check_cache_exists |]. intros is_cached.
  apply keeps_try.
  - apply keeps_bind.
    { destruct is_cached; [apply Hget | apply keeps_ret]. }
    intros [cached_data|].
    + apply keeps_bind; [apply Hlog |]. intros _.
      apply keeps_bind; [apply keeps_get_request_count |]. intros n.
      apply keeps_ret.
    + apply keeps_bind; [apply Hfetch |]. intros fresh.
      apply keeps_bind; [apply Hcache |]. intros _.
      apply keeps_bind; [apply Hlog |]. intros _.
      apply keeps_bind; [apply keeps_get_request_count |]. intros n.
      apply keeps_ret.
  - intros e. destruct e;
      (apply keeps_bind; [apply Hlog | intros _; apply keeps_ret]).
Qed.

End keeps.

Section others.
Implicit Types (l : list VehicleCache) (v : VehicleCache).

(** Writing back the row of a registration moves and changes the row
    of no other registration. *)
Lemma list_find_set_other l i v v' reg reg' :
  list_find (λ y, registration_number y = reg) l = Some (i, v) →
  registration_number v' = registration_number v →
  reg' ≠ reg →
  list_find (λ y, registration_number y = reg') (<[i := v']> l)
  = list_find (λ y, registration_number y = reg') l.
Proof.
  intros (Hi & Hv & _)%list_find_Some Hreg Hne.
  rewrite (list_find_set_row l i v) by done.
  destruct (list_find _ l) as [[j y]|] eqn:Hj; [|done]. simpl.
  apply list_find_Some in Hj as (Hj & Hy & _).
  rewrite decide_False; [done |]. intros ->. congruence.
Qed.

Lemma list_find_add_other l v reg' :
  registration_number v ≠ reg' →
  list_find (λ y, registration_number y = reg') (l ++ [v])
  = list_find (λ y, registration_number y = reg') l.
Proof.
  intros Hne.
  destruct (list_find (λ y, registration_number y = reg') l) as [[j y]|] eqn:Hj.
  - by apply list_find_app_l.
  - rewrite list_find_app_r by done. simpl. by rewrite decide_False.
Qed.

End others.

Lemma cache_raises_state now reg data s i vehicle e :
  list_find (λ v, registration_number v = reg) (vehicle_cache (pending s))
  = Some (i, vehicle) →
  merge_mot_data (default [] (mot_data vehicle)) (default [] (motTests data))
  = Raise e →
  cache_vehicle_data now reg data s
  = (Raise e,
     {| pending :=
          {| vehicle_cache :=
               <[i := overwrite_scalars vehicle data]> (vehicle_cache (pending s));
             request_logs := request_logs (pending s) |};
        committed := committed s;
        fetched := fetched s |}).
Proof.
  intros Hf Hm. unfold cache_vehicle_data, mbind, M_bind, query_first.
  rewrite Hf. simpl. by rewrite Hm.
Qed.

Lemma log_request_fails now reg rd qt c s :
  log_request true now reg rd qt c s = (Raise StorageError, s).
Proof. done. Qed.

Section agree.
Context (reg reg' : string) (db : Tables) (Hne : reg' ≠ reg).

Lemma agree_get_cached now :
  keeps (agree reg' db) (get_cached_vehicle_data now reg).
Proof.
  intros s [Hp Hc].
  destruct (list_find (λ v, registration_number v = reg)
              (vehicle_cache (pending s))) as [[i v]|] eqn:Hf.
  - destruct (decide (1 ≤ days (now - last_updated v))) as [Hd|Hd].
    + by rewrite (get_cached_stale _ _ _ i v).
    + rewrite (get_cached_hit_state _ _ _ i v) by (done || lia).
      unfold agree, find_row in *. simpl.
      rewrite (list_find_set_other _ _ v _ reg) by done. done.
  - unfold get_cached_vehicle_data, mbind, M_bind, query_first.
    by rewrite Hf.
Qed.

Lemma agree_cache now data :
  keeps (agree reg' db) (cache_vehicle_data now reg data).
Proof.
  intros s [Hp Hc].
  destruct (list_find (λ v, registration_number v = reg)
              (vehicle_cache (pending s))) as [[i v]|] eqn:Hf.
  - destruct (merge_mot_data (default [] (mot_data v))
                (default [] (motTests data))) as [merged|e] eqn:Hm.
    + rewrite (cache_existing _ _ _ _ i v merged) by done.
      unfold agree, find_row in *. simpl.
      rewrite (list_find_set_other _ _ v _ reg) by done. done.
    + rewrite (cache_raises_state _ _ _ _ i v e) by done.
      unfold agree, find_row in *. simpl.
      rewrite (list_find_set_other _ _ v _ reg) by done. done.
  - rewrite cache_new by done.
    unfold agree, find_row in *. simpl.
    rewrite list_find_add_other by (simpl; congruence). done.
Qed.

Lemma agree_log fails now rd qt c :
  keeps (agree reg' db) (log_request fails now reg rd qt c).
Proof.
  intros s [Hp Hc]. destruct fails; [by rewrite log_request_fails |].
  rewrite log_request_eq. unfold agree, find_row in *. simpl.
  destruct (list_find (λ v, registration_number v = reg)
              (vehicle_cache (pending s))) as [[i v]|] eqn:Hf; [|done].
  rewrite (list_find_set_other _ _ v _ reg) by done. done.
Qed.

Lemma agree_fetch up : keeps (agree reg' db) (fetch up reg).
Proof. by intros s [Hp Hc]. Qed.

End agree.

(** X7: a request leaves the record of every other registration as it
    was, whatever its outcome: a rejection, a missing or empty
    registration, a hit, a refresh, an upstream failure, an unexpected
    error, and also when the log cannot be written. *)
Theorem request_leaves_other_registrations env request app reg' :
  (∀ raw, json_reg request = Some raw → reg' ≠ remove_spaces raw) →
  find_row reg' (database (post_vehicle env request app).2)
  = find_row reg' (database app).
Proof.
  intros Hne. unfold post_vehicle, rate_limit.
  destruct (is_rate_limited _ _ _) as [[] limiter']; [done |].
  unfold vehicle. cbn [json_reg database aggregator_calls].
  destruct (json_reg request) as [raw|]; [|done].
  case_bool_decide; [done |].
  specialize (Hne raw eq_refl).
  pose proof (keeps_serve (agree reg' (database app)) env (remove_spaces raw)
                (request_data_of request)
                (agree_get_cached _ _ _ Hne)
                (agree_cache _ _ _ Hne)
                (λ fails now qt c, agree_log _ _ _ Hne fails now _ qt c)
                (agree_fetch _ _ _ _)
                {| pending := database app; committed := database app;
                   fetched := aggregator_calls app |}) as Hk.
  destruct (serve _ _ _ _) as [r db]. simpl in *.
  by apply Hk.
Qed.

Lemma request_leaves_other_registrations_witness :
  let app := {| limiter := rate_limiter;
                database := tables_of [row_AB12CDE (Some [test_2023]) 0 1];
                aggregator_calls := [] |} in
  let other := {| request_headers := ∅; remote_addr := "10.0.0.1";
                  json_reg := Some "XY 34 ZZZ"; json_timezone := None |} in
  find_row "AB12CDE"
    (database (post_vehicle (env_at 5 (upstream_with [test_2024])) other app).2)
  = find_row "AB12CDE" (database app).
Proof.
  intros app other.
  apply (request_leaves_other_registrations
           (env_at 5 (upstream_with [test_2024])) other app "AB12CDE").
  intros raw [= <-]. by vm_compute.
Defined.

Lemma registrations_set_row l i v v' reg :
  list_find (λ y, registration_number y = reg) l = Some (i, v) →
  registration_number v' = registration_number v →
  registration_number <$> <[i := v']> l = registration_number <$> l.
Proof.
  intros (Hi & _ & _)%list_find_Some Hreg.
  rewrite list_fmap_insert, Hreg. apply list_insert_id.
  by rewrite list_lookup_fmap, Hi.
Qed.

Section grown.
Context (reg : string) (db : Tables).

Lemma grown_get_cached now : keeps (grown db) (get_cached_vehicle_data now reg).
Proof.
  intros s [[Hp1 Hp2] Hc].
  destruct (list_find (λ v, registration_number v = reg)
              (vehicle_cache (pending s))) as [[i v]|] eqn:Hf.
  - destruct (decide (1 ≤ days (now - last_updated v))) as [Hd|Hd].
    + by rewrite (get_cached_stale _ _ _ i v).
    + rewrite (get_cached_hit_state _ _ _ i v) by (done || lia).
      unfold grown, registrations in *. simpl.
      by rewrite (registrations_set_row _ _ v _ reg).
  - unfold get_cached_vehicle_data, mbind, M_bind, query_first.
    by rewrite Hf.
Qed.

Lemma grown_cache now data : keeps (grown db) (cache_vehicle_data now reg data).
Proof.
  intros s [[Hp1 Hp2] Hc].
  destruct (list_find (λ v, registration_number v = reg)
              (vehicle_cache (pending s))) as [[i v]|] eqn:Hf.
  - destruct (merge_mot_data (default [] (mot_data v))
                (default [] (motTests data))) as [merged|e] eqn:Hm.
    + rewrite (cache_existing _ _ _ _ i v merged) by done.
      unfold grown, registrations in *. simpl.
      by rewrite (registrations_set_row _ _ v _ reg).
    + rewrite (cache_raises_state _ _ _ _ i v e) by done.
      unfold grown, registrations in *. simpl.
      by rewrite (registrations_set_row _ _ v _ reg).
  - rewrite cache_new by done.
    unfold grown, registrations in *. simpl. rewrite fmap_app.
    split; (split; [by apply prefix_app_r | done]).
Qed.

Lemma grown_log fails now rd qt c :
  keeps (grown db) (log_request fails now reg rd qt c).
Proof.
  intros s [[Hp1 Hp2] Hc]. destruct fails; [by rewrite log_request_fails |].
  rewrite log_request_eq. unfold grown, registrations in *. simpl.
  destruct (list_find (λ v, registration_number v = reg)
              (vehicle_cache (pending s))) as [[i v]|] eqn:Hf.
  - rewrite (registrations_set_row _ _ v _ reg) by done.
    split; (split; [done | by apply prefix_app_r]).
  - split; (split; [done | by apply prefix_app_r]).
Qed.

Lemma grown_fetch up : keeps (grown db) (fetch up reg).
Proof. by intros s [Hp Hc]. Qed.

End grown.

(** X8: a request deletes nothing: whatever its outcome, the database
    afterwards has the records it had, each in its place and under its
    registration, possibly followed by a new one, and the log entries
    it had, possibly followed by a new one. *)
Theorem request_deletes_nothing env request app :
  registrations (database app)
    `prefix_of` registrations (database (post_vehicle env request app).2) ∧
  request_logs (database app)
    `prefix_of` request_logs (database (post_vehicle env request app).2).
Proof.
  unfold post_vehicle, rate_limit.
  destruct (is_rate_limited _ _ _) as [[] limiter']; [done |].
  unfold vehicle. cbn [json_reg database aggregator_calls].
  destruct (json_reg request) as [raw|]; [|done].
  case_bool_decide; [done |].
  pose proof (keeps_serve (grown (database app)) env (remove_spaces raw)
                (request_data_of request)
                (grown_get_cached _ _)
                (grown_cache _ _)
                (λ fails now qt c, grown_log _ _ fails now _ qt c)
                (grown_fetch _ _ _)
                {| pending := database app; committed := database app;
                   fetched := aggregator_calls app |}) as Hk.
  destruct (serve _ _ _ _) as [r db]. simpl in *.
  by apply Hk.
Qed.

(** ** The route: failures, the log entry, the empty registration *)

Lemma merge_undated existing incoming :
  Exists (λ t, ¬ dated t) (existing ++ incoming) →
  merge_mot_data existing incoming = Raise (KeyError "completedDate").
Proof.
  intros [He|Hn]%Exists_app; unfold merge_mot_data.
  - by rewrite fill_Raise.
  - destruct (decide (Forall dated existing)) as [Hd|Hd].
    + destruct (fill_Ok [] _ Hd) as [d ->]. csimpl. by rewrite fill_Raise.
    + apply not_Forall_Exists in Hd; [|apply _]. by rewrite fill_Raise.
Qed.

(** The answer of the route to an exception of its body. *)
Lemma serve_aggregator_raises env reg rd s e :
  log_write_fails env = false →
  get_vehicle_data (upstream env) reg = Raise e →
  (∀ v, find_row reg (pending s) = Some v →
        1 ≤ days (utcnow env - last_updated v)) →
  let rows := vehicle_cache (pending s) in
  let found := list_find (λ v, registration_number v = reg) rows in
  let t :=
    {| vehicle_cache :=
         match found with
         | Some (i, v) => <[i := touch v (utcnow env)]> rows
         | None => rows
         end;
       request_logs :=
         request_logs (pending s)
         ++ [{| log_registration_number := reg; log_request_data := rd;
                query_time := elapsed env;
                is_cached := bool_decide (is_Some found);
                requested_at := utcnow env |}] |} in
  serve env reg rd s
  = (Ok match e with
        | VehicleAPIError message status_code =>
            {| status := status_code; payload := Error message |}
        | _ => {| status := 500;
                  payload := Error "An unexpected error occurred" |}
        end,
     {| pending := t; committed := t; fetched := fetched s ++ [reg] |}).
Proof.
  intros Hlog Hfetch Hstale. unfold serve, try_except. rewrite Hlog.
  unfold mbind, M_bind. rewrite check_cache_exists_eq.
  unfold find_row in Hstale.
  assert ((if bool_decide
                (is_Some (list_find (λ v, registration_number v = reg)
                            (vehicle_cache (pending s))))
           then get_cached_vehicle_data (utcnow env) reg
           else mret None) s = (Ok None, s)) as ->.
  { destruct (list_find _ _) as [[i v]|] eqn:Hf; [|done].
    rewrite bool_decide_eq_true_2 by by eexists.
    by rewrite (get_cached_stale _ _ _ i v) by (done || by apply Hstale). }
  unfold fetch. rewrite Hfetch.
  destruct e; by rewrite log_request_eq.
Qed.

(** X9: when the request reaches the aggregator (no record, or a stale
    one) and the aggregator raises, the response carries the message
    and the status code of a [VehicleAPIError] unchanged, and the
    generic message with status 500 for any other exception; no upsert
    occurs, the aggregator was called once, one log entry is written,
    and a stale record is only touched by the write of the log. *)
Theorem aggregator_failure_response env request app raw e :
  json_reg request = Some raw →
  remove_spaces raw ≠ "" →
  log_write_fails env = false →
  (is_rate_limited (limiter app) (client_ip request) (time env)).1 = false →
  get_vehicle_data (upstream env) (remove_spaces raw) = Raise e →
  (∀ v, find_row (remove_spaces raw) (database app) = Some v →
        1 ≤ days (utcnow env - last_updated v)) →
  let reg := remove_spaces raw in
  let r := post_vehicle env request app in
  r.1 = Ok match e with
           | VehicleAPIError message status_code =>
               {| status := status_code; payload := Error message |}
           | _ => {| status := 500;
                     payload := Error "An unexpected error occurred" |}
           end ∧
  aggregator_calls r.2 = aggregator_calls app ++ [reg] ∧
  length (request_logs (database r.2))
  = S (length (request_logs (database app))) ∧
  find_row reg (database r.2)
  = (λ v, touch v (utcnow env)) <$> find_row reg (database app).
Proof.
  intros Hraw Hreg Hlog Hadm Hfetch Hstale reg r. subst r.
  rewrite post_vehicle_admitted by done. unfold vehicle. rewrite Hraw.
  rewrite bool_decide_eq_false_2 by done.
  cbn [database aggregator_calls limiter].
  rewrite (serve_aggregator_raises env reg _ _ e); [|done..].
  cbn [fst snd database aggregator_calls committed pending fetched
       vehicle_cache request_logs].
  split_and!; [done | done | rewrite length_app; simpl; lia |].
  unfold find_row. cbn [vehicle_cache].
  destruct (list_find _ (vehicle_cache (database app))) as [[i v]|] eqn:Hf.
  - by rewrite (list_find_set_found _ _ v).
  - by rewrite Hf.
Qed.

Lemma aggregator_failure_response_witness :
  let app := {| limiter := rate_limiter;
                database := tables_of [row_AB12CDE (Some [test_2023]) 0 1];
                aggregator_calls := [] |} in
  let up := {| ves_api := λ _, Reply 200 fresh_AB12CDE;
               token_api := Reply 401 None;
               mot_api := λ _ _, Reply 200 empty_doc |} in
  let r := post_vehicle (env_at (25 * 3600) up) request_AB12CDE app in
  r.1 = Ok {| status := 500; payload := Error "An unexpected error occurred" |} ∧
  find_row "AB12CDE" (database r.2)
  = Some (touch (row_AB12CDE (Some [test_2023]) 0 1) (25 * 3600 * 1000000)).
Proof.
  intros app up r.
  destruct (aggregator_failure_response (env_at (25 * 3600) up)
              request_AB12CDE app "AB12 CDE" (HTTPError 401))
    as (H1 & _ & _ & H4); try reflexivity.
  - by vm_compute.
  - intros v [= <-]. by vm_compute.
  - split; [exact H1 | exact H4].
Defined.

(** X10: a VES response with a status other than 200 makes the
    aggregator raise a [VehicleAPIError] that carries that status,
    whatever the token endpoint and the MOT API would answer: they are
    not consulted. *)
Theorem ves_failure_carries_status up up' reg status_code body :
  ves_api up reg = Reply status_code body →
  ves_api up' reg = Reply status_code body →
  status_code ≠ 200 →
  get_vehicle_data up' reg = get_vehicle_data up reg ∧
  ∃ message, get_vehicle_data up reg
             = Raise (VehicleAPIError message status_code) ∧
             (status_code = 404 → message = "Vehicle not found") ∧
             (status_code = 400 → message = "Invalid registration number").
Proof.
  intros Hv Hv' Hne. unfold get_vehicle_data. rewrite Hv, Hv'.
  rewrite bool_decide_eq_true_2 by done. split; [done |].
  repeat case_bool_decide; subst; eexists; split_and!; done.
Qed.

Lemma ves_failure_carries_status_witness :
  let up := {| ves_api := λ _, Reply 503 empty_doc;
               token_api := NoReply;
               mot_api := λ _ _, NoReply |} in
  let up' := {| ves_api := λ _, Reply 503 empty_doc;
                token_api := Reply 200 (Some "token");
                mot_api := λ _ _, Reply 200 fresh_AB12CDE |} in
  get_vehicle_data up' "AB12CDE" = get_vehicle_data up "AB12CDE" ∧
  ∃ message, get_vehicle_data up "AB12CDE"
             = Raise (VehicleAPIError message 503).
Proof.
  intros up up'.
  destruct (ves_failure_carries_status up up' "AB12CDE" 503 empty_doc)
    as [Heq (message & H & _)]; [reflexivity | reflexivity | done |].
  split; [exact Heq | by exists message].
Defined.
